(** * KDAlloc [Mapping]: a move-only handle on one anonymous memory mapping

    Shallow embedding of [include/klee/KDAlloc/mapping.h].

    The class talks to the operating system through [::mmap], [::munmap],
    [::madvise] and [::minherit].  A method is embedded as a finite
    interaction tree ([Prog]): it either returns, stops in a failed
    [assert], or issues a system call and continues with the value the
    kernel returned.  Which branches of the header are compiled is fixed by
    a [Build] (target platform, and whether [NDEBUG] is defined).

    The kernel is not part of the header.  It is modelled separately
    ([Module Kernel]) as a table of live regions driven by an oracle that
    picks the answers a real kernel is free to pick (where a mapping is
    placed, whether an unmapping or a hint is accepted). *)

From stdpp Require Import gmap strings list fin_maps.
From Stdlib Require Import ZArith Lia.

Local Open Scope Z_scope.

(** ** The system interface used by the header *)

Module Sys.

(** Bits or-ed into the [flags] argument of [mmap].  Their numeric values
    come from the platform's [<sys/mman.h>]; only the set of bits that the
    code puts together matters here, so a flag word is kept as the list of
    its or-ed bits, in the order the code adds them. *)
Inductive mflag : Type :=
| MAP_ANON | MAP_PRIVATE | MAP_NORESERVE
| MAP_FIXED_NOREPLACE | MAP_FIXED | MAP_EXCL.

Inductive prot : Type := PROT_READ | PROT_WRITE.

Inductive madv : Type :=
| MADV_NOHUGEPAGE | MADV_DONTFORK | MADV_RANDOM | MADV_DONTNEED.

Inductive inherit : Type := INHERIT_NONE | VM_INHERIT_NONE.

Inductive syscall : Type :=
| Mmap (addr len : Z) (p : list prot) (flags : list mflag)
| Munmap (addr len : Z)
| Madvise (addr len : Z) (advice : list madv)
| Minherit (addr len : Z) (inh : inherit).

#[global] Instance mflag_eq_dec : EqDecision mflag.
Proof. solve_decision. Defined.
#[global] Instance prot_eq_dec : EqDecision prot.
Proof. solve_decision. Defined.
#[global] Instance madv_eq_dec : EqDecision madv.
Proof. solve_decision. Defined.
#[global] Instance inherit_eq_dec : EqDecision inherit.
Proof. solve_decision. Defined.
#[global] Instance syscall_eq_dec : EqDecision syscall.
Proof. solve_decision. Defined.

(** [MAP_FAILED] is [(void * )-1]: all ones in a 64-bit pointer. *)
Definition MAP_FAILED : Z := Z.ones 64.

Definition is_hint (c : syscall) : bool :=
  match c with
  | Madvise _ _ _ | Minherit _ _ _ => true
  | _ => false
  end.

Definition is_munmap (c : syscall) : bool :=
  match c with
  | Munmap _ _ => true
  | _ => false
  end.

End Sys.
Import Sys.

(** ** Programs over system calls *)

Inductive Prog (A : Type) : Type :=
| Ret (a : A)
| Abort (msg : string)
| Call (c : syscall) (k : Z → Prog A).
Arguments Ret {A} a.
Arguments Abort {A} msg.
Arguments Call {A} c k.

Fixpoint bind {A B : Type} (p : Prog A) (f : A → Prog B) : Prog B :=
  match p with
  | Ret a => f a
  | Abort msg => Abort msg
  | Call c k => Call c (λ r, bind (k r) f)
  end.

#[global] Instance Prog_ret : MRet Prog := @Ret.
#[global] Instance Prog_bind : MBind Prog := λ A B f p, bind p f.

Definition syscall_ (c : syscall) : Prog Z := Call c Ret.

(** ** Build configuration *)

Inductive Platform : Type :=
| Linux (version_ge_4_17 : bool)   (* LINUX_VERSION_CODE >= KERNEL_VERSION(4, 17, 0) *)
| FreeBSD
| Apple
| Other.                           (* any other target, Windows through the shims *)

Record Build : Type := { platform : Platform; NDEBUG : bool }.

Definition is_linux (p : Platform) : bool :=
  match p with Linux _ => true | _ => false end.

(** ** The class *)

Module kdalloc.

Record Mapping : Type := { baseAddress : Z; size : Z }.

(** [Mapping() = default]: the default member initialisers. *)
Definition Mapping_default : Mapping :=
  {| baseAddress := MAP_FAILED; size := 0 |}.

(** [explicit operator bool() const] *)
Definition operator_bool (this : Mapping) : bool :=
  bool_decide (baseAddress this ≠ MAP_FAILED).

Definition set_baseAddress (this : Mapping) (a : Z) : Mapping :=
  {| baseAddress := a; size := size this |}.

Definition set_size (this : Mapping) (s : Z) : Mapping :=
  {| baseAddress := baseAddress this; size := s |}.

Section Methods.
Variable cfg : Build.

(** [assert(cond && msg)]: compiled away under [NDEBUG], otherwise
    aborts the process when [cond] is false. *)
Definition assert (cond : bool) (msg : string) : Prog unit :=
  if NDEBUG cfg then Ret tt
  else if cond then Ret tt else Abort msg.

Definition mmap_flags (baseAddress : Z) : list mflag :=
  [MAP_ANON; MAP_PRIVATE] ++
  match platform cfg with
  | Linux ge_4_17 =>
      [MAP_NORESERVE] ++
      (if ge_4_17 && bool_decide (baseAddress ≠ 0)
       then [MAP_FIXED_NOREPLACE] else [])
  | FreeBSD =>
      if bool_decide (baseAddress ≠ 0) then [MAP_FIXED; MAP_EXCL] else []
  | Apple | Other => []
  end.

(** The block after [this->baseAddress = mappedAddress] in [try_map]. *)
Definition hygiene (this : Mapping) : Prog unit :=
  match platform cfg with
  | Linux _ =>
      rc ← syscall_ (Madvise (baseAddress this) (size this)
                       [MADV_NOHUGEPAGE; MADV_DONTFORK; MADV_RANDOM]);
      assert (bool_decide (rc = 0)) "madvise failed"
  | FreeBSD =>
      rc ← syscall_ (Minherit (baseAddress this) (size this) INHERIT_NONE);
      assert (bool_decide (rc = 0)) "minherit failed"
  | Apple =>
      rc ← syscall_ (Minherit (baseAddress this) (size this) VM_INHERIT_NONE);
      assert (bool_decide (rc = 0)) "minherit failed"
  | Other => Ret tt
  end.

(** [bool try_map(std::uintptr_t baseAddress) noexcept]; returns the
    result together with the updated object. *)
Definition try_map (this : Mapping) (baseAddress : Z) : Prog (bool * Mapping) :=
  assert (bool_decide (kdalloc.baseAddress this = MAP_FAILED))
         "this->baseAddress == MAP_FAILED";;
  let flags := mmap_flags baseAddress in
  mappedAddress ← syscall_ (Mmap baseAddress (size this)
                              [PROT_READ; PROT_WRITE] flags);
  if bool_decide (mappedAddress = MAP_FAILED) then
    Ret (false, set_baseAddress this MAP_FAILED)
  else if bool_decide (baseAddress ≠ 0) && bool_decide (baseAddress ≠ mappedAddress) then
    rc ← syscall_ (Munmap mappedAddress (size this));
    assert (bool_decide (rc = 0)) "munmap failed";;
    Ret (false, set_baseAddress this MAP_FAILED)
  else
    let this := set_baseAddress this mappedAddress in
    hygiene this;;
    Ret (true, this).

(** [Mapping(std::uintptr_t baseAddress, std::size_t size) noexcept]:
    [baseAddress] keeps its default initialiser, [size] is set, and the
    result of [try_map] is dropped. *)
Definition Mapping_at (baseAddress size : Z) : Prog Mapping :=
  let this := {| kdalloc.baseAddress := MAP_FAILED; kdalloc.size := size |} in
  r ← try_map this baseAddress;
  Ret (snd r).

(** [explicit Mapping(std::size_t size) noexcept : Mapping(0, size)] *)
Definition Mapping_sized (size : Z) : Prog Mapping := Mapping_at 0 size.

(** [Mapping(Mapping &&other) noexcept]: the new object and what is left
    in [other]. *)
Definition Mapping_move (other : Mapping) : Mapping * Mapping :=
  let this := {| baseAddress := kdalloc.baseAddress other; size := kdalloc.size other |} in
  let other := set_baseAddress other MAP_FAILED in
  let other := set_size other 0 in
  (this, other).

(** [void *getBaseAddress() const noexcept] *)
Definition getBaseAddress (this : Mapping) : Prog Z :=
  assert (operator_bool this) "Invalid mapping";;
  Ret (baseAddress this).

(** [std::size_t getSize() const noexcept] *)
Definition getSize (this : Mapping) : Prog Z := Ret (size this).

(** [void clear()] *)
Definition clear (this : Mapping) : Prog Mapping :=
  assert (operator_bool this) "Invalid mapping";;
  match platform cfg with
  | Linux _ =>
      rc ← syscall_ (Madvise (baseAddress this) (size this) [MADV_DONTNEED]);
      assert (bool_decide (rc = 0)) "madvise failed";;
      Ret this
  | _ =>
      let address := baseAddress this in
      rc ← syscall_ (Munmap (baseAddress this) (size this));
      assert (bool_decide (rc = 0)) "munmap failed";;
      let this := set_baseAddress this MAP_FAILED in
      r ← try_map this address;
      assert (fst r) "could not recreate the mapping";;
      Ret (snd r)
  end.

(** [~Mapping()] *)
Definition Mapping_destroy (this : Mapping) : Prog unit :=
  if operator_bool this then
    rc ← syscall_ (Munmap (baseAddress this) (size this));
    assert (bool_decide (rc = 0)) "munmap failed"
  else Ret tt.

End Methods.

(** Objects live at addresses; [&other != this] compares those.  A store
    maps the address of each live object to its state. *)

(** [swap(other.baseAddress, baseAddress)] for two objects of the store. *)
Definition swap_baseAddress (a b : nat) (h : gmap nat Mapping)
  : option (gmap nat Mapping) :=
  ma ← h !! a; mb ← h !! b;
  Some (<[b := set_baseAddress mb (baseAddress ma)]>
          (<[a := set_baseAddress ma (baseAddress mb)]> h)).

(** [swap(other.size, size)] *)
Definition swap_size (a b : nat) (h : gmap nat Mapping)
  : option (gmap nat Mapping) :=
  ma ← h !! a; mb ← h !! b;
  Some (<[b := set_size mb (size ma)]> (<[a := set_size ma (size mb)]> h)).

(** [Mapping &operator=(Mapping &&other) noexcept] on the objects at
    [this] and [other]; [None] when one of them is not a live object. *)
Definition Mapping_move_assign (this other : nat) (h : gmap nat Mapping)
  : option (gmap nat Mapping) :=
  _ ← h !! this; _ ← h !! other;
  if decide (other ≠ this) then
    h ← swap_baseAddress other this h;
    swap_size other this h
  else Some h.

End kdalloc.

(** ** The kernel side

    What the header cannot see: which regions are mapped, and what the
    kernel answers.  A region is a pair (base, length).  The oracle proposes
    the answer wherever a real kernel has a choice; the model keeps the
    guarantees every kernel gives:
    - [mmap] of length 0 fails, and a new mapping never lies on top of a
      live one, never at address 0 and never across the end of the address
      space (no plain [MAP_FIXED] is ever requested by the header);
    - [munmap] may be refused; when it returns 0 the range is gone
      afterwards, otherwise the table is as before;
    - [madvise] and [minherit] change no mapping; they may be refused. *)

Module Kernel.

Definition region : Type := Z * Z.

Definition overlaps (r1 r2 : region) : Prop :=
  r1.1 < r2.1 + r2.2 ∧ r2.1 < r1.1 + r1.2.

#[global] Instance overlaps_dec : RelDecision overlaps.
Proof. intros r1 r2. unfold overlaps. apply _. Defined.

(** [live] are the regions mapped now; [trace] is the history of calls
    with their results, newest first; [strays] collects the ranges handed
    to [munmap] while no such region was live (a release of something
    that was already released, or never mapped). *)
Record OS : Type :=
  { live : list region; trace : list (syscall * Z); strays : list region }.

Definition Oracle : Type := OS → syscall → Z.

Definition placeable (os : OS) (a len : Z) : Prop :=
  0 < len ∧ 0 < a ∧ a + len ≤ MAP_FAILED ∧
  Forall (λ r, ¬ overlaps (a, len) r) (live os).

#[global] Instance placeable_dec os a len : Decision (placeable os a len).
Proof. unfold placeable. apply _. Defined.

Definition answer (orc : Oracle) (os : OS) (c : syscall) : Z :=
  match c with
  | Mmap _ len _ _ =>
      let a := orc os c in
      if decide (placeable os a len) then a else MAP_FAILED
  | Munmap _ _ | Madvise _ _ _ | Minherit _ _ _ => orc os c
  end.

Definition unmap (r : region) (l : list region) : list region :=
  filter (λ r', r' ≠ r) l.

Definition effect (os : OS) (c : syscall) (ret : Z) : list region :=
  match c with
  | Mmap _ len _ _ =>
      if decide (ret = MAP_FAILED) then live os else (ret, len) :: live os
  | Munmap addr len =>
      if decide (ret = 0) then unmap (addr, len) (live os) else live os
  | Madvise _ _ _ | Minherit _ _ _ => live os
  end.

Definition stray (os : OS) (c : syscall) : list region :=
  match c with
  | Munmap addr len =>
      if decide ((addr, len) ∈ live os) then strays os
      else (addr, len) :: strays os
  | _ => strays os
  end.

Definition kernel (orc : Oracle) (os : OS) (c : syscall) : Z * OS :=
  let ret := answer orc os c in
  (ret, {| live := effect os c ret;
           trace := (c, ret) :: trace os;
           strays := stray os c |}).

Inductive Outcome (A : Type) : Type :=
| Returned (a : A) (os : OS)
| Aborted (msg : string) (os : OS).
Arguments Returned {A} a os.
Arguments Aborted {A} msg os.

Fixpoint run {A : Type} (orc : Oracle) (p : Prog A) (os : OS) : Outcome A :=
  match p with
  | Ret a => Returned a os
  | Abort msg => Aborted msg os
  | Call c k => let '(ret, os') := kernel orc os c in run orc (k ret) os'
  end.

Definition final_os {A : Type} (o : Outcome A) : OS :=
  match o with Returned _ os | Aborted _ os => os end.

(** Some kernels to run the code against. *)

(** First address above every live region, page aligned. *)
Definition first_free (os : OS) : Z :=
  let top := foldr (λ r acc, Z.max (r.1 + r.2) acc) 65536 (live os) in
  (top + 4095) / 4096 * 4096.

(** Places a mapping at the requested address when that is possible, picks
    one itself when no address is requested, and accepts every hint. *)
Definition obliging : Oracle := λ os c,
  match c with
  | Mmap addr _ _ _ => if decide (addr = 0) then first_free os else addr
  | _ => 0
  end.

(** Never honours a requested address. *)
Definition elsewhere : Oracle := λ os c,
  match c with
  | Mmap _ _ _ _ => first_free os
  | _ => 0
  end.

(** Out of address space: every [mmap] fails. *)
Definition exhausted : Oracle := λ os c,
  match c with
  | Mmap _ _ _ _ => MAP_FAILED
  | _ => 0
  end.

(** Maps like [obliging] but refuses every hint. *)
Definition no_hints : Oracle := λ os c,
  match c with
  | Mmap addr _ _ _ => if decide (addr = 0) then first_free os else addr
  | Munmap _ _ => 0
  | Madvise _ _ _ | Minherit _ _ _ => -1
  end.

(** Never honours a requested address, and refuses to unmap. *)
Definition clinging : Oracle := λ os c,
  match c with
  | Mmap _ _ _ _ => first_free os
  | Munmap _ _ => -1
  | Madvise _ _ _ | Minherit _ _ _ => 0
  end.

Definition boot : OS := {| live := []; trace := []; strays := [] |}.

(** The calls made on the way from [os] to [os'], newest first. *)
Definition since (os os' : OS) : list (syscall * Z) :=
  take (length (trace os') - length (trace os))%nat (trace os').

End Kernel.
Import Kernel.

Import kdalloc.

(** ** Client programs

    A client owns a store of [Mapping] objects and uses them through the
    public interface.  [exec] runs a sequence of such uses against a kernel.
    A use that no C++ program can make (an object that does not exist, a
    second object at the same place), or that breaks the documented
    precondition of [clear], ends the run as [Illegal]. *)

Module Client.

Inductive Cmd : Type :=
| New (l : nat) (baseAddress size : Z)   (* Mapping l(baseAddress, size); *)
| NewSized (l : nat) (size : Z)          (* Mapping l(size); *)
| NewDefault (l : nat)                   (* Mapping l; *)
| MoveNew (l src : nat)                  (* Mapping l(std::move(src)); *)
| MoveAssign (dst src : nat)             (* dst = std::move(src); *)
| Clear (l : nat)                        (* l.clear(); *)
| Delete (l : nat).                      (* the lifetime of l ends *)

Record World : Type := { objs : gmap nat Mapping; os : OS }.

Inductive Result : Type :=
| Running (w : World)
| Crashed (msg : string) (os : OS)
| Illegal (w : World).

Definition result_os (r : Result) : OS :=
  match r with
  | Running w | Illegal w => os w
  | Crashed _ os => os
  end.

Section Exec.
Variable cfg : Build.
Variable orc : Oracle.

Definition construct (l : nat) (p : Prog Mapping) (w : World) : Result :=
  match objs w !! l with
  | Some _ => Illegal w
  | None =>
      match run orc p (os w) with
      | Returned m os' => Running {| objs := <[l := m]> (objs w); os := os' |}
      | Aborted msg os' => Crashed msg os'
      end
  end.

Definition step (c : Cmd) (w : World) : Result :=
  match c with
  | New l a s => construct l (Mapping_at cfg a s) w
  | NewSized l s => construct l (Mapping_sized cfg s) w
  | NewDefault l => construct l (Ret Mapping_default) w
  | MoveNew l src =>
      match objs w !! l, objs w !! src with
      | None, Some other =>
          let '(this, other) := Mapping_move other in
          Running {| objs := <[l := this]> (<[src := other]> (objs w));
                     os := os w |}
      | _, _ => Illegal w
      end
  | MoveAssign dst src =>
      match Mapping_move_assign dst src (objs w) with
      | Some h => Running {| objs := h; os := os w |}
      | None => Illegal w
      end
  | Clear l =>
      match objs w !! l with
      | Some m =>
          if operator_bool m then
            match run orc (clear cfg m) (os w) with
            | Returned m' os' =>
                Running {| objs := <[l := m']> (objs w); os := os' |}
            | Aborted msg os' => Crashed msg os'
            end
          else Illegal w
      | None => Illegal w
      end
  | Delete l =>
      match objs w !! l with
      | Some m =>
          match run orc (Mapping_destroy cfg m) (os w) with
          | Returned _ os' =>
              Running {| objs := delete l (objs w); os := os' |}
          | Aborted msg os' => Crashed msg os'
          end
      | None => Illegal w
      end
  end.

Fixpoint exec (cs : list Cmd) (w : World) : Result :=
  match cs with
  | [] => Running w
  | c :: cs =>
      match step c w with
      | Running w' => exec cs w'
      | r => r
      end
  end.

End Exec.

Definition start (os : OS) : World := {| objs := ∅; os := os |}.

End Client.
Import Client.

(** ** Vocabulary of the statements *)

(** The [mmap] call [try_map] issues for a request at [addr]. *)
Definition mmap_call (cfg : Build) (this : Mapping) (addr : Z) : syscall :=
  Mmap addr (size this) [PROT_READ; PROT_WRITE] (mmap_flags cfg addr).

(** The hint [try_map] applies to a fresh mapping on this platform, with the
    message of the assertion on its result. *)
Definition hint_call (cfg : Build) (this : Mapping) : option (syscall * string) :=
  match platform cfg with
  | Linux _ =>
      Some (Madvise (baseAddress this) (size this)
              [MADV_NOHUGEPAGE; MADV_DONTFORK; MADV_RANDOM],
            "madvise failed"%string)
  | FreeBSD =>
      Some (Minherit (baseAddress this) (size this) INHERIT_NONE,
            "minherit failed"%string)
  | Apple =>
      Some (Minherit (baseAddress this) (size this) VM_INHERIT_NONE,
            "minherit failed"%string)
  | Other => None
  end.

(** The object a failed construction leaves behind. *)
Definition failed (s : Z) : Mapping := {| baseAddress := MAP_FAILED; size := s |}.

(** The two ways construction can fail, as [try_map] tells them apart
    internally: by the kernel's answer [a] to a request for [addr]. *)
Inductive FailureCause : Type := MappingFailed | AddressMismatch.

Definition failure_cause (addr a : Z) : option FailureCause :=
  if decide (a = MAP_FAILED) then Some MappingFailed
  else if decide (addr ≠ 0 ∧ addr ≠ a) then Some AddressMismatch
  else None.

(** A hint ([madvise], [minherit]) was refused on the way from [os] to [os']. *)
Definition hint_failed (os os' : OS) : Prop :=
  ∃ c rc, (c, rc) ∈ since os os' ∧ is_hint c = true ∧ rc ≠ 0.

(** A [munmap] was refused on the way from [os] to [os']. *)
Definition munmap_failed (os os' : OS) : Prop :=
  ∃ c rc, (c, rc) ∈ since os os' ∧ is_munmap c = true ∧ rc ≠ 0.

(** An [mmap] on the way from [os] to [os'] did not give back the region at
    [b]: it failed, or [b] was requested ([b ≠ 0]) and another address came
    back. *)
Definition remap_failed (b : Z) (os os' : OS) : Prop :=
  ∃ addr len p fl r,
    (Mmap addr len p fl, r) ∈ since os os' ∧ (r = MAP_FAILED ∨ (b ≠ 0 ∧ r ≠ b)).

Definition aborted {A : Type} (o : Outcome A) : Prop :=
  ∃ msg os, o = Aborted msg os.

(** The region an object claims, if it claims one. *)
Definition region_of (m : Mapping) : option region :=
  if operator_bool m then Some (baseAddress m, size m) else None.

(** Live regions other than [old]. *)
Definition others (old : option region) (os : OS) (r : region) : Prop :=
  r ∈ live os ∧ old ≠ Some r.

(** An operation on one object takes the kernel from [os] to [os'] while the
    object's claim goes from [old] to [new]: nothing stray was released, the
    regions of everybody else are still live, and the new claim is live and
    is not a region of anybody else. *)
Record handover (old : option region) (os os' : OS) (new : option region) : Prop :=
  { ho_strays : strays os' = strays os;
    ho_keep : ∀ r, others old os r → r ∈ live os';
    ho_new : ∀ r, new = Some r → r ∈ live os' ∧ ¬ others old os r }.

(** Every valid object's region is live, and no two objects claim the same
    region. *)
Record owned (w : World) : Prop :=
  { own_live : ∀ l m r,
      objs w !! l = Some m → region_of m = Some r → r ∈ live (os w);
    own_excl : ∀ l1 l2 m1 m2 r,
      l1 ≠ l2 → objs w !! l1 = Some m1 → objs w !! l2 = Some m2 →
      region_of m1 = Some r → region_of m2 = Some r → False }.

(** What one step of a client keeps. *)
Definition step_keeps (w : World) (r : Result) : Prop :=
  match r with
  | Running w' => owned w' ∧ strays (os w') = strays (os w)
  | Crashed _ os' => strays os' = strays (os w)
  | Illegal w' => w' = w
  end.

(** ** The Windows shims of [mapping.h]

    Under [_WIN32] the header supplies [mmap], [munmap] and [sysconf] itself,
    on top of [VirtualAlloc], [VirtualFree] and [GetSystemInfo].  The
    constants of [<windows.h>] and the three system functions are not part
    of the header: they are parameters here. *)

Module Win32.

Definition MAP_PRIVATE : Z := 2.    (* 0x02 *)
Definition MAP_ANON : Z := 32.      (* 0x20 *)
Definition PROT_READ : Z := 1.      (* 0x1 *)
Definition PROT_WRITE : Z := 2.     (* 0x2 *)
Definition PROT_EXEC : Z := 4.      (* 0x4 *)
Definition _SC_PAGESIZE : Z := 1.

Section Shims.
Variables PAGE_READONLY PAGE_READWRITE PAGE_EXECUTE_READ : Z.
Variables MEM_COMMIT MEM_RESERVE MEM_RELEASE : Z.
(** [VirtualAlloc lpAddress dwSize flAllocationType flProtect] is the pointer
    the system returns (0 for [NULL]); [VirtualFree lpAddress dwSize
    dwFreeType] is its [BOOL]; [dwPageSize] is what [GetSystemInfo] reports. *)
Variable VirtualAlloc : Z → Z → Z → Z → Z.
Variable VirtualFree : Z → Z → Z → Z.
Variable dwPageSize : Z.

(** The first lines of the [mmap] shim: [flProtect] starts at 0 and one
    constant is or-ed in for each of the three bits of [prot]. *)
Definition flProtect (prot : Z) : Z :=
  let fl := 0 in
  let fl := if decide (Z.land prot PROT_READ ≠ 0) then Z.lor fl PAGE_READONLY else fl in
  let fl := if decide (Z.land prot PROT_WRITE ≠ 0) then Z.lor fl PAGE_READWRITE else fl in
  let fl := if decide (Z.land prot PROT_EXEC ≠ 0) then Z.lor fl PAGE_EXECUTE_READ else fl in
  fl.

(** [inline void *mmap(void *addr, size_t length, int prot, int flags, int fd, int64_t offset)] *)
Definition mmap (addr length prot flags fd offset : Z) : Z :=
  let ptr := VirtualAlloc addr length (Z.lor MEM_COMMIT MEM_RESERVE) (flProtect prot) in
  if decide (ptr = 0) then MAP_FAILED else ptr.

(** [inline int munmap(void *addr, size_t length)] *)
Definition munmap (addr length : Z) : Z :=
  if decide (VirtualFree addr 0 MEM_RELEASE ≠ 0) then 0 else -1.

(** [inline long sysconf(int name)] *)
Definition sysconf (name : Z) : Z := dwPageSize.

(** The [prot] word of a call of the class, with the values the header
    gives the bits. *)
Definition prot_word (p : list Sys.prot) : Z :=
  foldr (λ x acc,
           Z.lor (match x with
                  | Sys.PROT_READ => PROT_READ
                  | Sys.PROT_WRITE => PROT_WRITE
                  end) acc) 0 p.

(** What the class's calls are answered with when [::mmap] and [::munmap]
    are these shims.  No [#if] branch of [try_map] adds a flag on this
    platform, so the flag word is [MAP_ANON | MAP_PRIVATE]; [madvise] and
    [minherit] are never called. *)
Definition via_shims : Oracle := λ os c,
  match c with
  | Mmap addr len p _ => mmap addr len (prot_word p) (Z.lor MAP_ANON MAP_PRIVATE) (-1) 0
  | Munmap addr len => munmap addr len
  | Madvise _ _ _ | Minherit _ _ _ => 0
  end.

End Shims.

End Win32.

(** ** The Windows shims of [Time.h]

    [gettimeofday] and [getrusage] for Windows.  What the system writes into
    the out-parameters of [GetSystemTimeAsFileTime], [GetProcessTimes] and
    [GetProcessMemoryInfo] is an argument here; [None] stands for a call
    that reports failure.  The width of [long] comes from the compiler, not
    from the header: it is the parameter [long_bits]. *)

Module WinTime.

Record timeval : Type := { tv_sec : Z; tv_usec : Z }.

Record FILETIME : Type := { dwLowDateTime : Z; dwHighDateTime : Z }.

Record rusage : Type :=
  { ru_utime : timeval; ru_stime : timeval;
    ru_maxrss : Z; ru_ixrss : Z; ru_idrss : Z; ru_isrss : Z;
    ru_minflt : Z; ru_majflt : Z; ru_nswap : Z; ru_inblock : Z;
    ru_oublock : Z; ru_msgsnd : Z; ru_msgrcv : Z; ru_nsignals : Z;
    ru_nvcsw : Z; ru_nivcsw : Z }.

Definition RUSAGE_SELF : Z := 0.

(** [ULARGE_INTEGER]: [QuadPart] of a value whose [LowPart] and [HighPart]
    (two [DWORD]s) were set. *)
Definition QuadPart (LowPart HighPart : Z) : Z :=
  (HighPart mod 2^32) * 2^32 + LowPart mod 2^32.

(** Arithmetic in [UINT64]. *)
Definition u64 (x : Z) : Z := x mod 2^64.

Definition EPOCH : Z := 116444736000000000.

Section Long.
Variable long_bits : Z.

(** The conversion [(long)x] of an unsigned value: [x] when it fits, wrapped
    into the range of [long] otherwise. *)
Definition to_long (x : Z) : Z :=
  (x + 2^(long_bits - 1)) mod 2^long_bits - 2^(long_bits - 1).

(** [inline int gettimeofday(struct timeval *tp, void *tzp)]: the result and
    what [tp] points to afterwards ([None] for a null [tp]).  [ft] is what
    [GetSystemTimeAsFileTime] delivers. *)
Definition gettimeofday (tp : option timeval) (ft : FILETIME) : Z * option timeval :=
  match tp with
  | Some _ =>
      let li := QuadPart (dwLowDateTime ft) (dwHighDateTime ft) in
      let t := u64 (li - EPOCH) / 10 in
      (0, Some {| tv_sec := to_long (t / 1000000);
                  tv_usec := to_long (t mod 1000000) |})
  | None => (0, None)
  end.

(** [int getrusage(int who, struct rusage *usage)]: the result and [*usage]
    afterwards.  [times] is the pair ([kernel_time], [user_time]) of a
    successful [GetProcessTimes], [peak] the [PeakWorkingSetSize] of a
    successful [GetProcessMemoryInfo]. *)
Definition getrusage (who : Z) (times : option (FILETIME * FILETIME))
    (peak : option Z) (usage : rusage) : Z * rusage :=
  if decide (who ≠ RUSAGE_SELF) then (-1, usage)
  else match times with
  | None => (-1, usage)
  | Some (kernel_time, user_time) =>
      match peak with
      | None => (-1, usage)
      | Some PeakWorkingSetSize =>
          let kernel := QuadPart (dwLowDateTime kernel_time) (dwHighDateTime kernel_time) in
          let user := QuadPart (dwLowDateTime user_time) (dwHighDateTime user_time) in
          (0, {| ru_utime := {| tv_sec := to_long (user / 10000000);
                                tv_usec := to_long ((user mod 10000000) / 10) |};
                 ru_stime := {| tv_sec := to_long (kernel / 10000000);
                                tv_usec := to_long ((kernel mod 10000000) / 10) |};
                 ru_maxrss := to_long (PeakWorkingSetSize / 1024);
                 ru_ixrss := ru_ixrss usage; ru_idrss := ru_idrss usage;
                 ru_isrss := ru_isrss usage; ru_minflt := ru_minflt usage;
                 ru_majflt := ru_majflt usage; ru_nswap := ru_nswap usage;
                 ru_inblock := ru_inblock usage; ru_oublock := ru_oublock usage;
                 ru_msgsnd := ru_msgsnd usage; ru_msgrcv := ru_msgrcv usage;
                 ru_nsignals := ru_nsignals usage; ru_nvcsw := ru_nvcsw usage;
                 ru_nivcsw := ru_nivcsw usage |})
      end
  end.

End Long.

End WinTime.

(** ** Accounting for the kernel's table *)

(** Some object of the store claims [r]. *)
Definition claimed (w : World) (r : region) : Prop :=
  ∃ l m, objs w !! l = Some m ∧ region_of m = Some r.

(** An operation on one object, read exactly: the live regions afterwards
    are those from before without the old claim, plus the new claim; a new
    claim is non-empty and, unless it is the old one, was not live. *)
Record transfer (old : option region) (os os' : OS) (new : option region) : Prop :=
  { tr_live : ∀ r, r ∈ live os' ↔ (r ∈ live os ∧ old ≠ Some r) ∨ new = Some r;
    tr_new : ∀ r, new = Some r → 0 < r.2 ∧ (old = Some r ∨ r ∉ live os) }.

(** The live regions are those of [live0] and the claims of the store; no
    claim is empty, and none is a region of [live0]. *)
Record accounted (live0 : list region) (w : World) : Prop :=
  { acc_live : ∀ r, r ∈ live (os w) ↔ r ∈ live0 ∨ claimed w r;
    acc_fresh : ∀ r, claimed w r → 0 < r.2 ∧ r ∉ live0 }.

(** No two entries of the table overlap. *)
Fixpoint pairwise_disjoint (l : list region) : Prop :=
  match l with
  | [] => True
  | r :: l => Forall (λ r', ¬ overlaps r r') l ∧ pairwise_disjoint l
  end.

(** * Properties *)

(** ** Running programs *)

Lemma run_bind {A B : Type} (orc : Oracle) (p : Prog A) (f : A → Prog B) (os : OS) :
  run orc (p ≫= f) os =
  match run orc p os with
  | Returned a os' => run orc (f a) os'
  | Aborted msg os' => Aborted msg os'
  end.
Proof.
  revert os. induction p as [a | msg | c k IH]; intros os; try reflexivity.
  change (Call c k ≫= f) with (Call c (λ r, k r ≫= f)).
  cbn [run]. destruct (kernel orc os c) as [ret os']. apply IH.
Qed.

Lemma run_syscall (orc : Oracle) (c : syscall) (os : OS) :
  run orc (syscall_ c) os = Returned (answer orc os c) (snd (kernel orc os c)).
Proof. reflexivity. Qed.

Lemma since_new (os os' : OS) (new : list (syscall * Z)) :
  trace os' = new ++ trace os → since os os' = new.
Proof.
  intros E. unfold since. rewrite E, length_app.
  replace (length new + length (trace os) - length (trace os))%nat
    with (length new) by lia.
  by rewrite take_app_length.
Qed.

Lemma since_refl (os : OS) : since os os = [].
Proof. by apply since_new. Qed.

Lemma answer_mmap_cases (orc : Oracle) (os : OS) (addr len : Z) p fl :
  let a := answer orc os (Mmap addr len p fl) in
  a = MAP_FAILED ∨ placeable os a len.
Proof.
  cbn. case_decide; auto.
Qed.

Lemma unmap_fresh (r : region) (l : list region) :
  r ∉ l → unmap r l = l.
Proof.
  intros Hr. unfold unmap. induction l as [|x l IH]; [done|].
  apply not_elem_of_cons in Hr as [Hx Hl].
  rewrite filter_cons_True by done. by rewrite IH.
Qed.

Lemma unmap_cons_eq (r : region) (l : list region) :
  unmap r (r :: l) = unmap r l.
Proof. unfold unmap. by rewrite filter_cons_False by (intros H; by apply H). Qed.

Lemma placeable_fresh (os : OS) (a len : Z) :
  placeable os a len → (a, len) ∉ live os.
Proof.
  intros (Hlen & _ & _ & Hall) Hin.
  rewrite Forall_forall in Hall. apply (Hall _ Hin).
  unfold overlaps; cbn. lia.
Qed.

(** ** What [try_map] does, by the kernel's answer *)

Section TryMap.
Variable cfg : Build.
Variable orc : Oracle.

Lemma run_assert (b : bool) (msg : string) (os : OS) :
  run orc (assert cfg b msg) os =
  if NDEBUG cfg || b then Returned tt os else Aborted msg os.
Proof. unfold assert. by destruct (NDEBUG cfg), b. Qed.

Lemma try_map_run (this : Mapping) (addr : Z) (os : OS) :
  baseAddress this = MAP_FAILED →
  let a := answer orc os (mmap_call cfg this addr) in
  let os1 := snd (kernel orc os (mmap_call cfg this addr)) in
  run orc (try_map cfg this addr) os =
  if decide (a = MAP_FAILED) then
    Returned (false, set_baseAddress this MAP_FAILED) os1
  else if decide (addr ≠ 0 ∧ addr ≠ a) then
    if NDEBUG cfg || bool_decide (answer orc os1 (Munmap a (size this)) = 0)
    then Returned (false, set_baseAddress this MAP_FAILED)
                  (snd (kernel orc os1 (Munmap a (size this))))
    else Aborted "munmap failed" (snd (kernel orc os1 (Munmap a (size this))))
  else
    match run orc (hygiene cfg (set_baseAddress this a)) os1 with
    | Returned _ os3 => Returned (true, set_baseAddress this a) os3
    | Aborted msg os3 => Aborted msg os3
    end.
Proof.
  intros Hb a os1. unfold try_map.
  rewrite run_bind, run_assert, Hb, bool_decide_eq_true_2, orb_true_r by done.
  rewrite run_bind, run_syscall. fold (mmap_call cfg this addr). fold a. fold os1.
  destruct (decide (a = MAP_FAILED)) as [Ha|Ha].
  { by rewrite bool_decide_eq_true_2. }
  rewrite bool_decide_eq_false_2 by done.
  destruct (decide (addr ≠ 0 ∧ addr ≠ a)) as [[H0 Hne]|Hok].
  - rewrite !bool_decide_eq_true_2 by done. cbn [andb].
    rewrite run_bind, run_syscall, run_bind, run_assert.
    by destruct (NDEBUG cfg || _).
  - replace (bool_decide (addr ≠ 0) && bool_decide (addr ≠ a)) with false.
    2:{ symmetry. apply andb_false_iff.
        destruct (decide (addr = 0)); [left|right];
          apply bool_decide_eq_false_2; naive_solver. }
    rewrite run_bind.
    destruct (run orc (hygiene cfg (set_baseAddress this a)) os1); done.
Qed.

End TryMap.

(** ** Effects of single calls on the kernel's tables *)

Section KernelFacts.
Variable orc : Oracle.

Lemma kernel_trace (os : OS) (c : syscall) :
  trace (snd (kernel orc os c)) = (c, answer orc os c) :: trace os.
Proof. reflexivity. Qed.

Lemma kernel_mmap_failed (os : OS) (addr len : Z) p fl :
  answer orc os (Mmap addr len p fl) = MAP_FAILED →
  live (snd (kernel orc os (Mmap addr len p fl))) = live os ∧
  strays (snd (kernel orc os (Mmap addr len p fl))) = strays os.
Proof. intros E. cbn [kernel snd live strays effect stray]. by rewrite E, decide_True. Qed.

Lemma kernel_mmap_mapped (os : OS) (addr len : Z) p fl :
  answer orc os (Mmap addr len p fl) ≠ MAP_FAILED →
  live (snd (kernel orc os (Mmap addr len p fl)))
    = (answer orc os (Mmap addr len p fl), len) :: live os ∧
  strays (snd (kernel orc os (Mmap addr len p fl))) = strays os.
Proof. intros E. cbn [kernel snd live strays effect stray]. by rewrite decide_False. Qed.

Lemma kernel_munmap_live (os : OS) (addr len : Z) :
  (addr, len) ∈ live os →
  strays (snd (kernel orc os (Munmap addr len))) = strays os.
Proof. intros Hin. cbn [kernel snd strays stray]. by rewrite decide_True. Qed.

Lemma kernel_munmap_table (os : OS) (addr len : Z) :
  live (snd (kernel orc os (Munmap addr len))) =
  if decide (answer orc os (Munmap addr len) = 0)
  then unmap (addr, len) (live os) else live os.
Proof. reflexivity. Qed.

Lemma kernel_hint (os : OS) (c : syscall) :
  is_hint c = true →
  live (snd (kernel orc os c)) = live os ∧
  strays (snd (kernel orc os c)) = strays os.
Proof. by destruct c. Qed.

(** Mapping a region and unmapping it again restores the table, if the
    kernel does unmap. *)
Lemma kernel_mmap_munmap (os : OS) (addr len : Z) p fl :
  let a := answer orc os (Mmap addr len p fl) in
  let os1 := snd (kernel orc os (Mmap addr len p fl)) in
  let rc := answer orc os1 (Munmap a len) in
  let os2 := snd (kernel orc os1 (Munmap a len)) in
  a ≠ MAP_FAILED →
  live os2 = (if decide (rc = 0) then live os else (a, len) :: live os) ∧
  strays os2 = strays os ∧
  trace os2 = [(Munmap a len, rc); (Mmap addr len p fl, a)] ++ trace os.
Proof.
  intros a os1 rc os2 Ha.
  destruct (answer_mmap_cases orc os addr len p fl) as [?|Hp]; [done|].
  fold a in Hp.
  destruct (kernel_mmap_mapped os addr len p fl Ha) as [Hl Hs].
  fold a os1 in Hl, Hs.
  split_and!.
  - unfold os2. rewrite kernel_munmap_table, Hl. fold rc.
    destruct (decide (rc = 0)); [|done].
    rewrite unmap_cons_eq. apply unmap_fresh. by apply placeable_fresh.
  - unfold os2. rewrite kernel_munmap_live; [done|]. rewrite Hl. apply list_elem_of_here.
  - reflexivity.
Qed.

End KernelFacts.

(** ** The hint applied after a successful mapping *)

Section Hygiene.
Variable cfg : Build.
Variable orc : Oracle.

Lemma hint_call_is_hint (this : Mapping) c msg :
  hint_call cfg this = Some (c, msg) → is_hint c = true.
Proof. unfold hint_call. destruct (platform cfg); naive_solver. Qed.

Lemma hygiene_run (this : Mapping) (os : OS) :
  run orc (hygiene cfg this) os =
  match hint_call cfg this with
  | None => Returned tt os
  | Some (c, msg) =>
      if NDEBUG cfg || bool_decide (answer orc os c = 0)
      then Returned tt (snd (kernel orc os c))
      else Aborted msg (snd (kernel orc os c))
  end.
Proof.
  unfold hygiene, hint_call.
  destruct (platform cfg); try reflexivity;
    rewrite run_bind, run_syscall, run_assert; reflexivity.
Qed.

End Hygiene.

(** ** Construction *)

Section Create.
Variable cfg : Build.
Variable orc : Oracle.

Lemma Mapping_at_run (addr s : Z) (os : OS) :
  run orc (Mapping_at cfg addr s) os =
  match run orc (try_map cfg (failed s) addr) os with
  | Returned r os' => Returned (snd r) os'
  | Aborted msg os' => Aborted msg os'
  end.
Proof. unfold Mapping_at. by rewrite run_bind. Qed.

(** Construction ends in one of these ways, by the kernel's answer [a] to
    the [mmap] call and its answer to the [munmap] of a misplaced region. *)
Lemma Mapping_at_cases (addr s : Z) (os : OS) :
  let a := answer orc os (mmap_call cfg (failed s) addr) in
  let os1 := snd (kernel orc os (mmap_call cfg (failed s) addr)) in
  run orc (Mapping_at cfg addr s) os =
  if decide (a = MAP_FAILED) then Returned (failed s) os1
  else if decide (addr ≠ 0 ∧ addr ≠ a) then
    if NDEBUG cfg || bool_decide (answer orc os1 (Munmap a s) = 0)
    then Returned (failed s) (snd (kernel orc os1 (Munmap a s)))
    else Aborted "munmap failed" (snd (kernel orc os1 (Munmap a s)))
  else
    match run orc (hygiene cfg {| baseAddress := a; size := s |}) os1 with
    | Returned _ os3 => Returned {| baseAddress := a; size := s |} os3
    | Aborted msg os3 => Aborted msg os3
    end.
Proof.
  intros a os1. rewrite Mapping_at_run, try_map_run by done.
  fold a os1. cbn [size failed].
  destruct (decide (a = MAP_FAILED)); [done|].
  destruct (decide (addr ≠ 0 ∧ addr ≠ a)).
  - by destruct (NDEBUG cfg || _).
  - unfold set_baseAddress; cbn [size failed].
    by destruct (run orc (hygiene cfg _) os1).
Qed.

Lemma Mapping_at_size (addr s : Z) (os : OS) m os' :
  run orc (Mapping_at cfg addr s) os = Returned m os' → size m = s.
Proof.
  rewrite Mapping_at_cases.
  destruct (decide (_ = MAP_FAILED)); [by intros [= <- _]|].
  destruct (decide (addr ≠ 0 ∧ _)).
  - destruct (NDEBUG cfg || _); [by intros [= <- _] | done].
  - destruct (run orc (hygiene cfg _) _); [by intros [= <- _] | done].
Qed.

Lemma Mapping_at_invalid (addr s : Z) (os : OS) m os' :
  run orc (Mapping_at cfg addr s) os = Returned m os' →
  operator_bool m = false → m = failed s ∧ strays os' = strays os.
Proof.
  rewrite Mapping_at_cases.
  set (c := mmap_call cfg (failed s) addr). set (a := answer orc os c).
  destruct (decide (a = MAP_FAILED)) as [Ha|Ha].
  { intros [= <- <-] _. split; [done|]. by apply kernel_mmap_failed. }
  destruct (decide (addr ≠ 0 ∧ addr ≠ a)) as [Hm|Hm].
  { destruct (NDEBUG cfg || _); [|done]. intros [= <- <-] _. split; [done|].
    destruct (kernel_mmap_munmap orc os addr s [PROT_READ; PROT_WRITE]
                (mmap_flags cfg addr) Ha) as (? & ? & _). done. }
  destruct (run orc (hygiene cfg _) _); [|done].
  intros [= <- <-]. unfold operator_bool. cbn.
  by rewrite bool_decide_eq_true_2.
Qed.

(** A valid object comes out of construction only with a fresh region of
    the requested size, at the requested address if one was requested. *)
Lemma Mapping_at_valid (addr s : Z) (os : OS) m os' :
  run orc (Mapping_at cfg addr s) os = Returned m os' →
  operator_bool m = true →
  size m = s ∧ placeable os (baseAddress m) s ∧
  (addr ≠ 0 → baseAddress m = addr) ∧
  live os' = (baseAddress m, s) :: live os.
Proof.
  rewrite Mapping_at_cases.
  destruct (answer_mmap_cases orc os addr s [PROT_READ; PROT_WRITE]
              (mmap_flags cfg addr)) as [Hf|Hp];
    cbv zeta in *; fold (mmap_call cfg (failed s) addr) in *.
  { rewrite decide_True by done. by intros [= <- _]. }
  set (a := answer orc os _) in *.
  assert (a ≠ MAP_FAILED) as Ha by (destruct Hp as (? & ? & ? & _); lia).
  rewrite decide_False by done.
  destruct (decide (addr ≠ 0 ∧ addr ≠ a)) as [Hm|Hm].
  { destruct (NDEBUG cfg || _); [by intros [= <- _]|done]. }
  rewrite hygiene_run.
  assert (∀ os3, live os3 = live (snd (kernel orc os (mmap_call cfg (failed s) addr))) →
            Returned {| baseAddress := a; size := s |} os3 = Returned m os' →
            size m = s ∧ placeable os (baseAddress m) s ∧
            (addr ≠ 0 → baseAddress m = addr) ∧
            live os' = (baseAddress m, s) :: live os) as Hdone.
  { intros os3 Hl [= <- <-]. cbn [baseAddress size]. split_and!; [done..| |].
    - intros H0. destruct (decide (a = addr)); [done|]. destruct Hm. by split.
    - rewrite Hl. by apply kernel_mmap_mapped. }
  destruct (hint_call cfg _) as [[c msg]|] eqn:Hc.
  - apply hint_call_is_hint in Hc.
    destruct (NDEBUG cfg || _); [|done]. intros R _. revert R.
    apply Hdone. by apply kernel_hint.
  - intros R _. revert R. by apply Hdone.
Qed.

(** With a kernel that maps where asked and accepts the hint, construction
    yields a valid object of the requested size. *)
Lemma Mapping_at_succeeds (addr s : Z) (os : OS) :
  let a := answer orc os (mmap_call cfg (failed s) addr) in
  let os1 := snd (kernel orc os (mmap_call cfg (failed s) addr)) in
  a ≠ MAP_FAILED → addr = 0 ∨ a = addr →
  (∀ c msg, hint_call cfg {| baseAddress := a; size := s |} = Some (c, msg) →
            answer orc os1 c = 0) →
  ∃ os', run orc (Mapping_at cfg addr s) os =
         Returned {| baseAddress := a; size := s |} os'.
Proof.
  intros a os1 Ha Hat Hhint. rewrite Mapping_at_cases. fold a os1.
  rewrite decide_False by done.
  rewrite decide_False by (intros [? ?]; destruct Hat; congruence).
  rewrite hygiene_run. destruct (hint_call cfg _) as [[c msg]|]; [|by eexists].
  rewrite (Hhint c msg eq_refl), bool_decide_eq_true_2, orb_true_r by done.
  by eexists.
Qed.

End Create.

(** C3, as stated, fails: in a build with [NDEBUG], when the kernel places
    the mapping elsewhere and then refuses to unmap it, the constructor
    returns the invalid object while the misplaced region is still mapped. *)
Lemma failed_create_can_leave_mapping :
  let cfg := {| platform := Apple; NDEBUG := true |} in
  answer clinging boot (mmap_call cfg (failed 4096) 1048576) ≠ 1048576 ∧
  ∃ m os',
    run clinging (Mapping_at cfg 1048576 4096) boot = Returned m os' ∧
    operator_bool m = false ∧
    live os' = [(65536, 4096)] ∧ live os' ≠ live boot.
Proof.
  cbv zeta. split; [by vm_compute|].
  eexists _, _. split_and!; by vm_compute.
Qed.

(** C3, amended.  Whenever construction fails -- the kernel refuses the
    mapping, or a requested address is not the one the kernel chose -- and
    the constructor returns, the object is invalid ([baseAddress] is
    [MAP_FAILED]).  If [mmap] itself failed, or the [munmap] of the misplaced
    region returned 0, the kernel's table is the one from before the call.
    If that [munmap] is refused, a build with assertions stops in
    "munmap failed" instead of returning, and a build with [NDEBUG] returns
    with the misplaced region still in the table. *)
Theorem create_failure_cleanup (cfg : Build) (orc : Oracle) (os : OS) (addr s : Z) :
  let a := answer orc os (mmap_call cfg (failed s) addr) in
  let os1 := snd (kernel orc os (mmap_call cfg (failed s) addr)) in
  let rc := answer orc os1 (Munmap a s) in
  a = MAP_FAILED ∨ (addr ≠ 0 ∧ a ≠ addr) →
  match run orc (Mapping_at cfg addr s) os with
  | Returned m os' =>
      operator_bool m = false ∧ baseAddress m = MAP_FAILED ∧
      (a = MAP_FAILED ∨ rc = 0 → live os' = live os) ∧
      (a ≠ MAP_FAILED ∧ rc ≠ 0 → NDEBUG cfg = true ∧ live os' = (a, s) :: live os)
  | Aborted msg os' =>
      msg = "munmap failed"%string ∧ NDEBUG cfg = false ∧ a ≠ MAP_FAILED ∧ rc ≠ 0
  end.
Proof.
  intros a os1 rc Hfail. rewrite Mapping_at_cases. fold a os1 rc.
  destruct (decide (a = MAP_FAILED)) as [Ha|Ha].
  - split_and!; try done.
    + intros _. by apply kernel_mmap_failed.
    + by intros [? _].
  - destruct Hfail as [?|[H0 Hne]]; [done|].
    rewrite decide_True by done.
    destruct (kernel_mmap_munmap orc os addr s [PROT_READ; PROT_WRITE]
                (mmap_flags cfg addr) Ha) as (Hl' & _ & _).
    assert (live (snd (kernel orc os1 (Munmap a s)))
            = if decide (rc = 0) then live os else (a, s) :: live os) as Hl
      by exact Hl'.
    clear Hl'. destruct (NDEBUG cfg) eqn:Hn; cbn [orb].
    + split_and!; try done.
      * intros [?|Hrc]; [done|]. by rewrite Hl, decide_True.
      * intros [_ Hrc]. by rewrite Hl, decide_False.
    + case_bool_decide as Hrc.
      * split_and!; try done.
        -- intros _. by rewrite Hl, decide_True.
        -- by intros [_ ?].
      * done.
Qed.

Lemma create_failure_cleanup_witness :
  operator_bool (failed 4096) = false ∧ baseAddress (failed 4096) = MAP_FAILED ∧
  (answer elsewhere boot
     (mmap_call {| platform := Apple; NDEBUG := false |} (failed 4096) 1048576) = MAP_FAILED ∨
   (0:Z) = 0 →
   live {| live := [];
           trace := [(Munmap 65536 4096, 0);
                     (Mmap 1048576 4096 [PROT_READ; PROT_WRITE] [MAP_ANON; MAP_PRIVATE],
                      65536)];
           strays := [] |} = live boot) ∧
  (answer elsewhere boot
     (mmap_call {| platform := Apple; NDEBUG := false |} (failed 4096) 1048576) ≠ MAP_FAILED ∧
   (0:Z) ≠ 0 →
   false = true ∧
   live {| live := [];
           trace := [(Munmap 65536 4096, 0);
                     (Mmap 1048576 4096 [PROT_READ; PROT_WRITE] [MAP_ANON; MAP_PRIVATE],
                      65536)];
           strays := [] |} = (65536, 4096) :: live boot).
Proof.
  apply (create_failure_cleanup
           {| platform := Apple; NDEBUG := false |} elsewhere boot 1048576 4096).
  right. vm_compute. split; discriminate.
Defined.

(** C6, as stated, fails: on a platform that passes no fixed-placement flag,
    when the kernel places the mapping elsewhere and then refuses to unmap
    it, a build with assertions stops in "munmap failed" instead of
    reporting failure, and a build with [NDEBUG] reports failure while the
    misplaced region stays mapped. *)
Lemma misplaced_mapping_can_stay :
  mmap_flags {| platform := Other; NDEBUG := false |} 1048576 = [MAP_ANON; MAP_PRIVATE] ∧
  answer clinging boot
    (mmap_call {| platform := Other; NDEBUG := false |} (failed 4096) 1048576) = 65536 ∧
  (∃ os', run clinging (try_map {| platform := Other; NDEBUG := false |} (failed 4096) 1048576)
              boot = Aborted "munmap failed" os' ∧
          live os' = [(65536, 4096)]) ∧
  (∃ m os', run clinging (try_map {| platform := Other; NDEBUG := true |} (failed 4096) 1048576)
                boot = Returned (false, m) os' ∧
            live os' = [(65536, 4096)]).
Proof.
  split_and!; [by vm_compute..| |].
  - eexists. split; by vm_compute.
  - eexists _, _. split; by vm_compute.
Qed.

(** C6, amended.  When an address is requested and the kernel places the
    mapping somewhere else, [try_map] makes exactly one more call, [munmap]
    on that placement.  If it returns 0, [try_map] reports failure, the
    object is invalid and the table of live regions is as before.  If it is
    refused, a build with assertions stops in "munmap failed", and a build
    with [NDEBUG] reports failure with the object invalid and the misplaced
    region still in the table.  The object never takes the other address.
    This holds for every build, in particular for those that pass no
    fixed-placement flag. *)
Theorem misplaced_mapping_goes_to_munmap
    (cfg : Build) (orc : Oracle) (os : OS) (this : Mapping) (addr : Z) :
  baseAddress this = MAP_FAILED →
  addr ≠ 0 →
  let a := answer orc os (mmap_call cfg this addr) in
  let os1 := snd (kernel orc os (mmap_call cfg this addr)) in
  let rc := answer orc os1 (Munmap a (size this)) in
  let o := run orc (try_map cfg this addr) os in
  a ≠ MAP_FAILED → a ≠ addr →
  since os (final_os o) = [(Munmap a (size this), rc); (mmap_call cfg this addr, a)] ∧
  match o with
  | Returned r os' =>
      fst r = false ∧ operator_bool (snd r) = false ∧
      (rc = 0 → live os' = live os) ∧
      (rc ≠ 0 → NDEBUG cfg = true ∧ live os' = (a, size this) :: live os)
  | Aborted msg _ => msg = "munmap failed"%string ∧ NDEBUG cfg = false ∧ rc ≠ 0
  end.
Proof.
  intros Hb H0 a os1 rc o Ha Hne. unfold o. rewrite try_map_run by done.
  fold a os1 rc.
  rewrite decide_False, decide_True by done.
  destruct (kernel_mmap_munmap orc os addr (size this) [PROT_READ; PROT_WRITE]
              (mmap_flags cfg addr) Ha) as (Hl' & _ & Ht').
  assert (live (snd (kernel orc os1 (Munmap a (size this))))
          = if decide (rc = 0) then live os else (a, size this) :: live os) as Hl
    by exact Hl'.
  assert (trace (snd (kernel orc os1 (Munmap a (size this))))
          = [(Munmap a (size this), rc); (mmap_call cfg this addr, a)] ++ trace os) as Ht
    by exact Ht'.
  clear Hl' Ht'.
  assert (operator_bool (set_baseAddress this MAP_FAILED) = false) as Hinv.
  { unfold operator_bool. cbn. by apply bool_decide_eq_false_2; intros H; apply H. }
  destruct (NDEBUG cfg) eqn:Hn; cbn [orb]; [|case_bool_decide as Hrc];
    cbn [final_os fst snd]; (split; [by apply since_new|]).
  - split_and!; try done.
    + intros Hrc. by rewrite Hl, decide_True.
    + intros Hrc. by rewrite Hl, decide_False.
  - split_and!; try done. intros _. by rewrite Hl, decide_True.
  - done.
Qed.

Lemma misplaced_mapping_goes_to_munmap_witness :
  since boot
    (final_os (run elsewhere
                 (try_map {| platform := Other; NDEBUG := true |} (failed 8192) 1048576) boot))
  = [(Munmap 65536 8192, 0);
     (Mmap 1048576 8192 [PROT_READ; PROT_WRITE] [MAP_ANON; MAP_PRIVATE], 65536)] ∧
  (false = false ∧ operator_bool (failed 8192) = false ∧
   ((0:Z) = 0 →
    live {| live := [];
            trace := [(Munmap 65536 8192, 0);
                      (Mmap 1048576 8192 [PROT_READ; PROT_WRITE] [MAP_ANON; MAP_PRIVATE],
                       65536)];
            strays := [] |} = live boot) ∧
   ((0:Z) ≠ 0 →
    true = true ∧
    live {| live := [];
            trace := [(Munmap 65536 8192, 0);
                      (Mmap 1048576 8192 [PROT_READ; PROT_WRITE] [MAP_ANON; MAP_PRIVATE],
                       65536)];
            strays := [] |} = (65536, 8192) :: live boot)).
Proof.
  apply (misplaced_mapping_goes_to_munmap
           {| platform := Other; NDEBUG := true |} elsewhere boot (failed 8192) 1048576);
    vm_compute; congruence.
Defined.

(** C4, as stated, fails: a refused mapping and a misplaced one give the
    caller the very same object, so nothing the caller receives tells the
    two causes apart. *)
Lemma create_failure_cause_not_reported :
  let cfg := {| platform := Apple; NDEBUG := false |} in
  failure_cause 1048576 (answer exhausted boot (mmap_call cfg (failed 4096) 1048576))
    = Some MappingFailed ∧
  failure_cause 1048576 (answer elsewhere boot (mmap_call cfg (failed 4096) 1048576))
    = Some AddressMismatch ∧
  ∃ m os1 os2,
    run exhausted (Mapping_at cfg 1048576 4096) boot = Returned m os1 ∧
    run elsewhere (Mapping_at cfg 1048576 4096) boot = Returned m os2 ∧
    ¬ ∃ diagnose : Mapping → FailureCause,
        diagnose m = MappingFailed ∧ diagnose m = AddressMismatch.
Proof.
  cbv zeta. split_and!; [by vm_compute..|].
  eexists _, _, _. split_and!; [by vm_compute..|].
  intros (d & E1 & E2). congruence.
Qed.

(** C4, amended.  Construction reports failure only through the validity of
    the object it leaves: whatever made it fail, the object is the same one,
    with [baseAddress = MAP_FAILED] and the requested size. *)
Theorem create_failure_is_one_value
    (cfg : Build) (orc1 orc2 : Oracle) (os1 os2 : OS) (addr s : Z)
    (m1 m2 : Mapping) (os1' os2' : OS) :
  run orc1 (Mapping_at cfg addr s) os1 = Returned m1 os1' →
  run orc2 (Mapping_at cfg addr s) os2 = Returned m2 os2' →
  operator_bool m1 = false → operator_bool m2 = false →
  m1 = m2 ∧ m1 = {| baseAddress := MAP_FAILED; size := s |}.
Proof.
  intros R1 R2 V1 V2.
  destruct (Mapping_at_invalid cfg orc1 addr s os1 m1 os1' R1 V1) as [-> _].
  destruct (Mapping_at_invalid cfg orc2 addr s os2 m2 os2' R2 V2) as [-> _].
  done.
Qed.

Lemma create_failure_is_one_value_witness :
  failed 4096 = failed 4096 ∧
  failed 4096 = {| baseAddress := MAP_FAILED; size := 4096 |}.
Proof.
  apply (create_failure_is_one_value
           {| platform := Linux true; NDEBUG := false |} exhausted elsewhere boot boot
           1048576 4096 (failed 4096) (failed 4096)
           {| live := [];
              trace := [(Mmap 1048576 4096 [PROT_READ; PROT_WRITE]
                           [MAP_ANON; MAP_PRIVATE; MAP_NORESERVE; MAP_FIXED_NOREPLACE],
                         MAP_FAILED)];
              strays := [] |}
           {| live := [];
              trace := [(Munmap 65536 4096, 0);
                        (Mmap 1048576 4096 [PROT_READ; PROT_WRITE]
                           [MAP_ANON; MAP_PRIVATE; MAP_NORESERVE; MAP_FIXED_NOREPLACE],
                         65536)];
              strays := [] |});
    vm_compute; reflexivity.
Defined.

(** C9. After a failed construction with size [s] the object is invalid but
    [getSize] still returns [s]; a default-constructed object and the source
    of a move construction report size 0. *)
Theorem failed_create_keeps_size
    (cfg : Build) (orc : Oracle) (os : OS) (addr s : Z) (m : Mapping) (os' : OS) :
  run orc (Mapping_at cfg addr s) os = Returned m os' →
  operator_bool m = false →
  getSize m = Ret s ∧
  getSize Mapping_default = Ret 0 ∧
  ∀ other : Mapping, getSize (snd (Mapping_move other)) = Ret 0.
Proof.
  intros R V. split_and!; [|done..].
  unfold getSize. by rewrite (Mapping_at_size cfg orc addr s os m os' R).
Qed.

Lemma failed_create_keeps_size_witness :
  getSize (failed 12288) = Ret 12288 ∧
  getSize Mapping_default = Ret 0 ∧
  ∀ other : Mapping, getSize (snd (Mapping_move other)) = Ret 0.
Proof.
  apply (failed_create_keeps_size
           {| platform := FreeBSD; NDEBUG := true |} exhausted boot 0 12288
           (failed 12288)
           {| live := [];
              trace := [(Mmap 0 12288 [PROT_READ; PROT_WRITE] [MAP_ANON; MAP_PRIVATE],
                         MAP_FAILED)];
              strays := [] |});
    vm_compute; reflexivity.
Defined.

(** ** Accessors *)

(** C5, as stated, fails: [getSize] has no validity check.  On a
    default-constructed (invalid) object it returns 0 in every build. *)
Lemma getSize_of_invalid_returns :
  operator_bool Mapping_default = false ∧
  getSize Mapping_default = Ret 0 ∧
  ¬ ∃ msg, getSize Mapping_default = Abort msg.
Proof. split_and!; [done..|]. intros [msg [=]]. Qed.

(** C5, amended.  On an invalid object [getBaseAddress] stops in its
    assertion when assertions are compiled in, and returns the sentinel
    [MAP_FAILED] under [NDEBUG]; [getSize] returns the stored size. *)
Theorem accessors_on_invalid (cfg : Build) (this : Mapping) :
  operator_bool this = false →
  getBaseAddress cfg this =
    (if NDEBUG cfg then Ret MAP_FAILED else Abort "Invalid mapping") ∧
  getSize this = Ret (size this).
Proof.
  intros V. split; [|done].
  unfold getBaseAddress, assert. rewrite V.
  apply bool_decide_eq_false in V.
  assert (baseAddress this = MAP_FAILED) as -> by (destruct (decide (baseAddress this = MAP_FAILED)); done).
  by destruct (NDEBUG cfg).
Qed.

Lemma accessors_on_invalid_witness :
  getBaseAddress {| platform := Linux true; NDEBUG := false |} (failed 4096)
    = Abort "Invalid mapping" ∧
  getSize (failed 4096) = Ret 4096.
Proof.
  apply (accessors_on_invalid {| platform := Linux true; NDEBUG := false |} (failed 4096)).
  reflexivity.
Defined.

(** ** Moves *)

Lemma Mapping_move_assign_distinct (h : gmap nat Mapping) (this other : nat) (mt mo : Mapping) :
  other ≠ this → h !! this = Some mt → h !! other = Some mo →
  Mapping_move_assign this other h = Some (<[this := mo]> (<[other := mt]> h)).
Proof.
  intros Hne Ht Ho. unfold Mapping_move_assign.
  rewrite Ht, Ho. cbn. rewrite decide_True by done.
  unfold swap_baseAddress. rewrite Ht, Ho. cbn.
  unfold swap_size. rewrite lookup_insert_eq.
  rewrite lookup_insert_ne by done. rewrite lookup_insert_eq. cbn.
  f_equal. unfold set_size, set_baseAddress; cbn.
  destruct mt as [bt st], mo as [bo so]; cbn.
  apply map_eq. intros i.
  destruct (decide (i = this)) as [->|Hi]; [by rewrite !lookup_insert_eq|].
  destruct (decide (i = other)) as [->|Hj];
    repeat (rewrite lookup_insert_eq || rewrite lookup_insert_ne by done); done.
Qed.

Lemma Mapping_move_assign_self (h : gmap nat Mapping) (this : nat) (m : Mapping) :
  h !! this = Some m → Mapping_move_assign this this h = Some h.
Proof.
  intros Ht. unfold Mapping_move_assign. rewrite Ht. cbn.
  by rewrite decide_False by (intros H; by apply H).
Qed.

(** C10. Move-assigning an object to itself changes nothing: the store --
    and with it the object's [baseAddress], [size] and validity -- is the
    one from before. *)
Theorem self_move_assign_is_identity (h : gmap nat Mapping) (this : nat) (m : Mapping) :
  h !! this = Some m →
  ∃ h', Mapping_move_assign this this h = Some h' ∧
        h' = h ∧ h' !! this = Some m.
Proof.
  intros Ht. exists h. split_and!; [|done..].
  by apply Mapping_move_assign_self with m.
Qed.

Lemma self_move_assign_is_identity_witness :
  ∃ h', Mapping_move_assign 7 7 {[ 7%nat := {| baseAddress := 1048576; size := 4096 |} ]}
          = Some h' ∧
        h' = {[ 7%nat := {| baseAddress := 1048576; size := 4096 |} ]} ∧
        h' !! 7%nat = Some {| baseAddress := 1048576; size := 4096 |}.
Proof.
  apply (self_move_assign_is_identity
           {[ 7%nat := {| baseAddress := 1048576; size := 4096 |} ]} 7
           {| baseAddress := 1048576; size := 4096 |}).
  reflexivity.
Defined.

(** C2, as stated, fails for move assignment onto a valid destination: the
    two objects are swapped, so the source comes out valid, holding the
    destination's former mapping, and destroying it calls [munmap]. *)
Lemma move_assign_onto_valid_keeps_source_valid :
  let dst := {| baseAddress := 1048576; size := 4096 |} in
  let src := {| baseAddress := 2097152; size := 8192 |} in
  ∃ h,
    Mapping_move_assign 1 2 {[ 1%nat := dst; 2%nat := src ]} = Some h ∧
    h !! 1%nat = Some src ∧
    h !! 2%nat = Some dst ∧
    operator_bool dst = true ∧
    Mapping_destroy {| platform := Linux true; NDEBUG := false |} dst ≠ Ret tt ∧
    since {| live := [(1048576, 4096); (2097152, 8192)]; trace := []; strays := [] |}
      (final_os (run obliging
         (Mapping_destroy {| platform := Linux true; NDEBUG := false |} dst)
         {| live := [(1048576, 4096); (2097152, 8192)]; trace := []; strays := [] |}))
    = [(Munmap 1048576 4096, 0)].
Proof.
  cbv zeta. eexists. split_and!; [by vm_compute..| |by vm_compute].
  vm_compute. discriminate.
Qed.

(** C2, amended.  Move construction gives the new object the source's
    [baseAddress] and [size] and leaves the source in the default state
    (invalid, size 0), whose destruction makes no system call.  Move
    assignment between two distinct objects exchanges their states: the
    destination takes the source's former state and the source takes the
    destination's; the source is therefore invalid afterwards, and its
    destruction makes no system call, exactly when the destination was
    invalid before. *)
Theorem move_transfers_mapping (cfg : Build) :
  (∀ other : Mapping,
     Mapping_move other = (other, Mapping_default) ∧
     operator_bool (snd (Mapping_move other)) = false ∧
     Mapping_destroy cfg (snd (Mapping_move other)) = Ret tt) ∧
  (∀ (h : gmap nat Mapping) (this other : nat) (mt mo : Mapping),
     other ≠ this → h !! this = Some mt → h !! other = Some mo →
     ∃ h', Mapping_move_assign this other h = Some h' ∧
           h' !! this = Some mo ∧ h' !! other = Some mt ∧
           (∀ l, l ≠ this → l ≠ other → h' !! l = h !! l) ∧
           (operator_bool mt = false → Mapping_destroy cfg mt = Ret tt)).
Proof.
  split.
  - intros [b s]. done.
  - intros h this other mt mo Hne Ht Ho. eexists. split_and!.
    + by apply Mapping_move_assign_distinct.
    + by rewrite lookup_insert_eq.
    + rewrite lookup_insert_ne by done. by rewrite lookup_insert_eq.
    + intros l H1 H2. by rewrite !lookup_insert_ne by done.
    + intros V. unfold Mapping_destroy. by rewrite V.
Qed.

Lemma move_transfers_mapping_witness :
  ∃ h', Mapping_move_assign 1 2
          {[ 1%nat := failed 4096; 2%nat := {| baseAddress := 2097152; size := 8192 |} ]}
          = Some h' ∧
        h' !! 1%nat = Some {| baseAddress := 2097152; size := 8192 |} ∧
        h' !! 2%nat = Some (failed 4096) ∧
        (∀ l, l ≠ 1%nat → l ≠ 2%nat →
           h' !! l = ({[ 1%nat := failed 4096;
                         2%nat := {| baseAddress := 2097152; size := 8192 |} ]}
                      : gmap nat Mapping) !! l) ∧
        (operator_bool (failed 4096) = false →
         Mapping_destroy {| platform := Apple; NDEBUG := false |} (failed 4096) = Ret tt).
Proof.
  apply (proj2 (move_transfers_mapping {| platform := Apple; NDEBUG := false |})
           {[ 1%nat := failed 4096; 2%nat := {| baseAddress := 2097152; size := 8192 |} ]}
           1%nat 2%nat (failed 4096) {| baseAddress := 2097152; size := 8192 |});
    [lia | reflexivity | reflexivity].
Defined.

(** ** [clear] *)

Section Clear.
Variable cfg : Build.
Variable orc : Oracle.

Lemma clear_run_linux (this : Mapping) (os : OS) :
  is_linux (platform cfg) = true → operator_bool this = true →
  let c := Madvise (baseAddress this) (size this) [MADV_DONTNEED] in
  run orc (clear cfg this) os =
  if NDEBUG cfg || bool_decide (answer orc os c = 0)
  then Returned this (snd (kernel orc os c))
  else Aborted "madvise failed" (snd (kernel orc os c)).
Proof.
  intros Hp V c. unfold clear.
  rewrite run_bind, run_assert, V, orb_true_r.
  destruct (platform cfg); try done.
  rewrite run_bind, run_syscall, run_bind, run_assert.
  fold c. by destruct (NDEBUG cfg || _).
Qed.

Lemma clear_run_fallback (this : Mapping) (os : OS) :
  is_linux (platform cfg) = false → operator_bool this = true →
  let c := Munmap (baseAddress this) (size this) in
  let os1 := snd (kernel orc os c) in
  run orc (clear cfg this) os =
  if NDEBUG cfg || bool_decide (answer orc os c = 0) then
    match run orc (try_map cfg (set_baseAddress this MAP_FAILED) (baseAddress this)) os1 with
    | Returned r os2 =>
        if NDEBUG cfg || fst r then Returned (snd r) os2
        else Aborted "could not recreate the mapping" os2
    | Aborted msg os2 => Aborted msg os2
    end
  else Aborted "munmap failed" os1.
Proof.
  intros Hp V c os1. unfold clear.
  rewrite run_bind, run_assert, V, orb_true_r.
  destruct (platform cfg); try done;
    rewrite run_bind, run_syscall, run_bind, run_assert;
    fold c os1; destruct (NDEBUG cfg || bool_decide (answer orc os c = 0)); try done;
    rewrite run_bind;
    destruct (run orc (try_map cfg _ _) os1) as [r os2|]; try done;
    rewrite run_bind, run_assert; by destruct (NDEBUG cfg || fst r).
Qed.

End Clear.




(** ** Failures the code treats as fatal *)

Lemma since_kernel (orc : Oracle) (os os' : OS) (c : syscall) :
  (length (trace os) ≤ length (trace os'))%nat →
  since os (snd (kernel orc os' c)) = (c, answer orc os' c) :: since os os'.
Proof.
  intros Hle. unfold since. cbn [kernel snd trace length].
  replace (S (length (trace os')) - length (trace os))%nat
    with (S (length (trace os') - length (trace os))) by lia.
  reflexivity.
Qed.

Ltac since_simpl :=
  repeat (rewrite since_kernel by (cbn [kernel snd trace length]; lia));
  rewrite ?since_refl.

Ltac since_simpl_in H :=
  repeat (rewrite since_kernel in H by (cbn [kernel snd trace length]; lia));
  rewrite ?since_refl in H.

Ltac trace_cases H :=
  repeat (apply elem_of_cons in H as [H|H];
          [apply pair_equal_spec in H as [? ?]; subst|]);
  try (by apply elem_of_nil in H).

(** C7, as stated, fails under [NDEBUG]: a refused hint is ignored and the
    constructor returns a valid object; a refused remap in [clear] comes back
    to the caller as an invalid object. *)
Lemma fatal_failures_ignored_under_NDEBUG :
  (let cfg := {| platform := Linux true; NDEBUG := true |} in
   ∃ m os',
     run no_hints (Mapping_at cfg 0 4096) boot = Returned m os' ∧
     operator_bool m = true ∧
     (Madvise 65536 4096 [MADV_NOHUGEPAGE; MADV_DONTFORK; MADV_RANDOM], -1)
       ∈ since boot os') ∧
  (let cfg := {| platform := Apple; NDEBUG := true |} in
   let this := {| baseAddress := 1048576; size := 4096 |} in
   let os := {| live := [(1048576, 4096)]; trace := []; strays := [] |} in
   ∃ m os',
     run exhausted (clear cfg this) os = Returned m os' ∧
     operator_bool m = false ∧
     (mmap_call cfg (failed 4096) 1048576, MAP_FAILED) ∈ since os os').
Proof.
  cbv zeta. split.
  - eexists _, _. split_and!; [by vm_compute..|].
    vm_compute. apply list_elem_of_here.
  - eexists _, _. split_and!; [by vm_compute..|].
    vm_compute. apply list_elem_of_here.
Qed.

Lemma hint_failure_aborts_create
    (cfg : Build) (orc : Oracle) (os : OS) (addr s : Z) :
  NDEBUG cfg = false →
  hint_failed os (final_os (run orc (Mapping_at cfg addr s) os)) →
  aborted (run orc (Mapping_at cfg addr s) os).
Proof.
  intros Hn. rewrite Mapping_at_cases.
  set (os1 := snd (kernel orc os _)). set (a := answer orc os _).
  destruct (decide (a = MAP_FAILED)) as [Ha|Ha].
  { intros (c & rc & Hin & Hh & Hrc). cbn [final_os] in Hin. unfold os1 in Hin.
    since_simpl_in Hin. trace_cases Hin. done. }
  destruct (decide (addr ≠ 0 ∧ addr ≠ a)) as [Hm|Hm].
  { rewrite Hn. cbn [orb]. case_bool_decide as Hu; [|intros _; by eexists _, _].
    intros (c & rc & Hin & Hh & Hrc). cbn [final_os] in Hin. unfold os1 in Hin.
    since_simpl_in Hin. trace_cases Hin; done. }
  rewrite hygiene_run. destruct (hint_call cfg _) as [[c msg]|].
  - rewrite Hn. cbn [orb]. case_bool_decide as Hz.
    + intros (c' & rc & Hin & Hh & Hrc). cbn [final_os] in Hin. unfold os1 in Hin.
      since_simpl_in Hin. trace_cases Hin; done.
    + intros _. by eexists _, _.
  - intros (c' & rc & Hin & Hh & Hrc). cbn [final_os] in Hin. unfold os1 in Hin.
    since_simpl_in Hin. trace_cases Hin. done.
Qed.

Lemma failure_aborts_clear
    (cfg : Build) (orc : Oracle) (os : OS) (this : Mapping) :
  NDEBUG cfg = false →
  operator_bool this = true →
  hint_failed os (final_os (run orc (clear cfg this) os)) ∨
  remap_failed (baseAddress this) os (final_os (run orc (clear cfg this) os)) →
  aborted (run orc (clear cfg this) os).
Proof.
  intros Hn V. destruct (is_linux (platform cfg)) eqn:Hl.
  - rewrite clear_run_linux by done. rewrite Hn. cbn [orb].
    case_bool_decide as Hz; [|intros _; by eexists _, _].
    cbn [final_os].
    intros [(c & rc & Hin & Hh & Hrc)|(addr & len & p & fl & r & Hin & _)];
      since_simpl_in Hin; trace_cases Hin; done.
  - rewrite clear_run_fallback by done. rewrite Hn. cbn [orb].
    case_bool_decide as Hz; [|intros _; by eexists _, _].
    rewrite try_map_run by done.
    set (os1 := snd (kernel orc os _)).
    set (a := answer orc os1 _).
    destruct (decide (a = MAP_FAILED)) as [Ha|Ha]; [intros _; by eexists _, _|].
    destruct (decide (baseAddress this ≠ 0 ∧ baseAddress this ≠ a)) as [Hm|Hm];
      [rewrite Hn; cbn [orb]; case_bool_decide; intros _; by eexists _, _|].
    rewrite hygiene_run. destruct (hint_call cfg _) as [[c msg]|] eqn:Hc.
    + apply hint_call_is_hint in Hc.
      rewrite Hn. cbn [orb]. case_bool_decide as Hz'; [|intros _; by eexists _, _].
      cbn [final_os fst snd].
      intros [(c' & rc & Hin & Hh & Hrc)|(addr & len & p & fl & r & Hin & Hr)];
        unfold os1 in Hin; since_simpl_in Hin; trace_cases Hin; try done.
      exfalso. destruct Hr as [Hr|[Hb Hr]]; [apply Ha; exact Hr|].
      apply Hm. split; [done|]. intros Heq. apply Hr. symmetry. exact Heq.
    + cbn [final_os fst snd].
      intros [(c' & rc & Hin & Hh & Hrc)|(addr & len & p & fl & r & Hin & Hr)];
        unfold os1 in Hin; since_simpl_in Hin; trace_cases Hin; try done.
      exfalso. destruct Hr as [Hr|[Hb Hr]]; [apply Ha; exact Hr|].
      apply Hm. split; [done|]. intros Heq. apply Hr. symmetry. exact Heq.
Qed.

(** C7, amended.  In a build with assertions compiled in (no [NDEBUG]): if a
    hint is refused while an object is constructed, the constructor does not
    return -- the run ends in an assertion; and if, during [clear] of a valid
    object, a hint is refused or mapping the region again fails, [clear]
    does not return either. *)
Theorem fatal_failures_abort (cfg : Build) :
  NDEBUG cfg = false →
  (∀ (orc : Oracle) (os : OS) (addr s : Z),
     hint_failed os (final_os (run orc (Mapping_at cfg addr s) os)) →
     aborted (run orc (Mapping_at cfg addr s) os)) ∧
  (∀ (orc : Oracle) (os : OS) (this : Mapping),
     operator_bool this = true →
     hint_failed os (final_os (run orc (clear cfg this) os)) ∨
     remap_failed (baseAddress this) os (final_os (run orc (clear cfg this) os)) →
     aborted (run orc (clear cfg this) os)).
Proof.
  intros Hn. split.
  - intros. by apply hint_failure_aborts_create.
  - intros. by apply failure_aborts_clear.
Qed.

Lemma fatal_failures_abort_witness :
  aborted (run no_hints (Mapping_at {| platform := Linux true; NDEBUG := false |} 0 4096) boot) ∧
  aborted (run exhausted
             (clear {| platform := Apple; NDEBUG := false |}
                    {| baseAddress := 1048576; size := 4096 |})
             {| live := [(1048576, 4096)]; trace := []; strays := [] |}).
Proof.
  split.
  - apply (proj1 (fatal_failures_abort {| platform := Linux true; NDEBUG := false |} eq_refl)
             no_hints boot 0 4096).
    exists (Madvise 65536 4096 [MADV_NOHUGEPAGE; MADV_DONTFORK; MADV_RANDOM]), (-1).
    split_and!; [vm_compute; apply list_elem_of_here | reflexivity | lia].
  - apply (proj2 (fatal_failures_abort {| platform := Apple; NDEBUG := false |} eq_refl)
             exhausted {| live := [(1048576, 4096)]; trace := []; strays := [] |}
             {| baseAddress := 1048576; size := 4096 |} eq_refl).
    right. exists 1048576, 4096, [PROT_READ; PROT_WRITE], [MAP_ANON; MAP_PRIVATE], MAP_FAILED.
    split; [vm_compute; apply list_elem_of_here | by left].
Defined.

(** ** Ownership: who may release which region *)

Lemma region_of_invalid (m : Mapping) : operator_bool m = false → region_of m = None.
Proof. unfold region_of. by intros ->. Qed.

Lemma region_of_valid (m : Mapping) :
  operator_bool m = true → region_of m = Some (baseAddress m, size m).
Proof. unfold region_of. by intros ->. Qed.

Lemma region_of_mapped (this : Mapping) (a : Z) :
  a ≠ MAP_FAILED → region_of (set_baseAddress this a) = Some (a, size this).
Proof.
  intros Ha. unfold region_of, operator_bool. cbn.
  by rewrite bool_decide_eq_true_2.
Qed.

Lemma region_of_failed (this : Mapping) :
  region_of (set_baseAddress this MAP_FAILED) = None.
Proof.
  unfold region_of, operator_bool. cbn.
  by rewrite bool_decide_eq_false_2 by (intros H; by apply H).
Qed.

Section Handover.
Variable orc : Oracle.

Lemma handover_none (old : option region) (os : OS) : handover old os os None.
Proof. split; [done| by intros r [? _] | done]. Qed.

Lemma handover_same (rg : region) (os : OS) :
  rg ∈ live os → handover (Some rg) os os (Some rg).
Proof.
  intros Hin. split; [done| by intros r [? _] |].
  intros r [= ->]. split; [done|]. by intros [_ ?].
Qed.

Lemma handover_tables (old new : option region) (os os1 os2 : OS) :
  live os2 = live os1 → strays os2 = strays os1 →
  handover old os os1 new → handover old os os2 new.
Proof.
  intros Hl Hs [H1 H2 H3]. split.
  - by rewrite Hs.
  - intros r Hr. rewrite Hl. by apply H2.
  - intros r Hr. rewrite Hl. by apply H3.
Qed.

Lemma handover_trans (old new : option region) (os os1 os2 : OS) :
  handover old os os1 None → handover None os1 os2 new →
  handover old os os2 new.
Proof.
  intros [A1 A2 _] [B1 B2 B3]. split.
  - by rewrite B1.
  - intros r Hr. apply B2. split; [by apply A2|done].
  - intros r Hr. destruct (B3 r Hr) as [Hin Hno]. split; [done|].
    intros Ho. apply Hno. split; [by apply A2|done].
Qed.

Lemma handover_hint (old new : option region) (os os1 : OS) (c : syscall) :
  is_hint c = true →
  handover old os os1 new → handover old os (snd (kernel orc os1 c)) new.
Proof.
  intros Hc. destruct (kernel_hint orc os1 c Hc) as [Hl Hs].
  by apply handover_tables.
Qed.

Lemma handover_mmap (os : OS) (addr len : Z) p fl :
  let a := answer orc os (Mmap addr len p fl) in
  handover None os (snd (kernel orc os (Mmap addr len p fl)))
           (if decide (a = MAP_FAILED) then None else Some (a, len)).
Proof.
  intros a. destruct (decide (a = MAP_FAILED)) as [Ha|Ha].
  - destruct (kernel_mmap_failed orc os addr len p fl Ha) as [Hl Hs].
    apply handover_tables with os; [done..|]. apply handover_none.
  - destruct (kernel_mmap_mapped orc os addr len p fl Ha) as [Hl Hs].
    fold a in Hl.
    destruct (answer_mmap_cases orc os addr len p fl) as [?|Hp]; [done|].
    fold a in Hp. split; [done| |].
    + intros r [Hr _]. rewrite Hl. by apply list_elem_of_further.
    + intros r [= <-]. split; [rewrite Hl; apply list_elem_of_here|].
      intros [Hin _]. by apply (placeable_fresh os a len).
Qed.

Lemma handover_munmap (os : OS) (rg : region) :
  rg ∈ live os →
  handover (Some rg) os (snd (kernel orc os (Munmap rg.1 rg.2))) None.
Proof.
  intros Hin. destruct rg as [b s]. cbn [fst snd]. split; [|  |done].
  - by apply kernel_munmap_live.
  - intros r [Hr Hne]. rewrite kernel_munmap_table.
    case_decide; [|done]. unfold unmap.
    apply list_elem_of_filter. split; [congruence|done].
Qed.

(** Unmapping the region that was just mapped. *)
Lemma handover_mmap_munmap (os : OS) (addr len : Z) p fl :
  let a := answer orc os (Mmap addr len p fl) in
  let os1 := snd (kernel orc os (Mmap addr len p fl)) in
  a ≠ MAP_FAILED →
  handover None os (snd (kernel orc os1 (Munmap a len))) None.
Proof.
  intros a os1 Ha.
  destruct (kernel_mmap_munmap orc os addr len p fl Ha) as (Hl & Hs & _).
  cbv zeta in Hl, Hs. subst a os1. split; [done| |done].
  intros r [Hr _]. rewrite Hl. case_decide; [done|].
  by apply list_elem_of_further.
Qed.

End Handover.

Section MethodsHandOver.
Variable cfg : Build.
Variable orc : Oracle.

Lemma try_map_handover (this : Mapping) (addr : Z) (os : OS) :
  baseAddress this = MAP_FAILED →
  match run orc (try_map cfg this addr) os with
  | Returned r os' => handover None os os' (region_of (snd r))
  | Aborted _ os' => strays os' = strays os
  end.
Proof.
  intros Hb. rewrite try_map_run by done.
  pose proof (handover_mmap orc os addr (size this) [PROT_READ; PROT_WRITE]
                (mmap_flags cfg addr)) as Hmap.
  cbv zeta in Hmap. fold (mmap_call cfg this addr) in Hmap.
  set (os1 := snd (kernel orc os _)) in *. set (a := answer orc os _) in *.
  destruct (decide (a = MAP_FAILED)) as [Ha|Ha].
  { cbn [snd]. by rewrite region_of_failed. }
  destruct (decide (addr ≠ 0 ∧ addr ≠ a)) as [Hm|Hm].
  { pose proof (handover_mmap_munmap orc os addr (size this) [PROT_READ; PROT_WRITE]
                  (mmap_flags cfg addr) Ha) as Hback.
    destruct (NDEBUG cfg || bool_decide _).
    - cbn [snd]. rewrite region_of_failed. exact Hback.
    - exact (ho_strays _ _ _ _ Hback). }
  rewrite hygiene_run. destruct (hint_call cfg _) as [[c msg]|] eqn:Hc.
  - apply hint_call_is_hint in Hc.
    destruct (NDEBUG cfg || bool_decide _).
    + cbn [snd]. rewrite region_of_mapped by done. by apply handover_hint.
    + destruct (kernel_hint orc os1 c Hc) as [_ ->]. apply Hmap.
  - cbn [snd]. by rewrite region_of_mapped.
Qed.

Lemma Mapping_at_handover (addr s : Z) (os : OS) :
  match run orc (Mapping_at cfg addr s) os with
  | Returned m os' => handover None os os' (region_of m)
  | Aborted _ os' => strays os' = strays os
  end.
Proof.
  rewrite Mapping_at_run.
  pose proof (try_map_handover (failed s) addr os eq_refl) as H.
  by destruct (run orc (try_map cfg (failed s) addr) os).
Qed.

Lemma destroy_handover (this : Mapping) (os : OS) :
  (∀ r, region_of this = Some r → r ∈ live os) →
  match run orc (Mapping_destroy cfg this) os with
  | Returned _ os' => handover (region_of this) os os' None
  | Aborted _ os' => strays os' = strays os
  end.
Proof.
  intros Hlive. unfold Mapping_destroy.
  destruct (operator_bool this) eqn:V.
  - rewrite region_of_valid in * by done.
    specialize (Hlive _ eq_refl).
    pose proof (handover_munmap orc os _ Hlive) as H. cbn [fst snd] in H.
    rewrite run_bind, run_syscall, run_assert.
    destruct (NDEBUG cfg || _); [done|apply H].
  - rewrite region_of_invalid by done. apply handover_none.
Qed.

Lemma clear_handover (this : Mapping) (os : OS) :
  operator_bool this = true →
  (baseAddress this, size this) ∈ live os →
  match run orc (clear cfg this) os with
  | Returned m os' => handover (region_of this) os os' (region_of m)
  | Aborted _ os' => strays os' = strays os
  end.
Proof.
  intros V Hlive. rewrite (region_of_valid this V).
  destruct (is_linux (platform cfg)) eqn:Hl.
  - rewrite clear_run_linux by done.
    destruct (NDEBUG cfg || _).
    + rewrite (region_of_valid this V).
      apply handover_hint; [done|]. by apply handover_same.
    + by apply kernel_hint.
  - rewrite clear_run_fallback by done.
    pose proof (handover_munmap orc os _ Hlive) as H1. cbn [fst snd] in H1.
    set (os1 := snd (kernel orc os _)) in *.
    destruct (NDEBUG cfg || bool_decide _); [|apply H1].
    pose proof (try_map_handover (set_baseAddress this MAP_FAILED)
                  (baseAddress this) os1 eq_refl) as H2.
    destruct (run orc (try_map cfg _ _) os1) as [r os2|msg os2].
    + destruct (NDEBUG cfg || fst r).
      * by apply handover_trans with os1.
      * rewrite (ho_strays _ _ _ _ H2). apply H1.
    + rewrite H2. apply H1.
Qed.

End MethodsHandOver.

(** ** The ownership invariant along a client run *)

Lemma owned_start (os : OS) : owned (start os).
Proof. split; cbn; intros *; by rewrite ?lookup_empty. Qed.

Lemma owned_others (w : World) (l l' : nat) (old : option region) (m' : Mapping) (r : region) :
  owned w →
  match objs w !! l with Some m => old = region_of m | None => old = None end →
  l' ≠ l → objs w !! l' = Some m' → region_of m' = Some r →
  others old (os w) r.
Proof.
  intros [I1 I2] Hold Hne Hl' Hr. split; [by eapply I1|].
  intros ->. destruct (objs w !! l) as [m|] eqn:Hl; [|done].
  by eapply (I2 l' l m' m r).
Qed.

Lemma owned_update (w : World) (l : nat) (old : option region) (m' : Mapping) (os' : OS) :
  owned w →
  match objs w !! l with Some m => old = region_of m | None => old = None end →
  handover old (os w) os' (region_of m') →
  owned {| objs := <[l := m']> (objs w); os := os' |}.
Proof.
  intros Hw Hold [_ Hkeep Hnew]. split; cbn [objs os].
  - intros l1 m1 r Hl1 Hr. destruct (decide (l1 = l)) as [->|Hne].
    + rewrite lookup_insert_eq in Hl1. injection Hl1 as <-. by apply Hnew.
    + rewrite lookup_insert_ne in Hl1 by done. apply Hkeep.
      by apply (owned_others w l l1 old m1 r).
  - intros l1 l2 m1 m2 r Hne Hl1 Hl2 Hr1 Hr2.
    destruct (decide (l1 = l)) as [->|Hne1]; destruct (decide (l2 = l)) as [->|Hne2];
      [done| | |].
    + rewrite lookup_insert_eq in Hl1. injection Hl1 as <-.
      rewrite lookup_insert_ne in Hl2 by done.
      apply (Hnew r Hr1). by apply (owned_others w l l2 old m2 r).
    + rewrite lookup_insert_eq in Hl2. injection Hl2 as <-.
      rewrite lookup_insert_ne in Hl1 by done.
      apply (Hnew r Hr2). by apply (owned_others w l l1 old m1 r).
    + rewrite lookup_insert_ne in Hl1, Hl2 by done.
      by apply (own_excl w Hw l1 l2 m1 m2 r).
Qed.

Lemma owned_delete (w : World) (l : nat) (m : Mapping) (os' : OS) :
  owned w → objs w !! l = Some m →
  handover (region_of m) (os w) os' None →
  owned {| objs := delete l (objs w); os := os' |}.
Proof.
  intros Hw Hl [_ Hkeep _]. split; cbn [objs os].
  - intros l1 m1 r Hl1 Hr. destruct (decide (l1 = l)) as [->|Hne].
    + by rewrite lookup_delete_eq in Hl1.
    + rewrite lookup_delete_ne in Hl1 by done. apply Hkeep.
      apply (owned_others w l l1 _ m1 r); try done. by rewrite Hl.
  - intros l1 l2 m1 m2 r Hne Hl1 Hl2 Hr1 Hr2.
    destruct (decide (l1 = l)) as [->|Hne1]; [by rewrite lookup_delete_eq in Hl1|].
    destruct (decide (l2 = l)) as [->|Hne2]; [by rewrite lookup_delete_eq in Hl2|].
    rewrite lookup_delete_ne in Hl1, Hl2 by done.
    by apply (own_excl w Hw l1 l2 m1 m2 r).
Qed.

(** A new store whose claims all come from the old one, different claimants
    from different claimants, is owned as well: moves only rename owners. *)
Lemma owned_rename (w : World) (h' : gmap nat Mapping) (f : nat → nat) :
  owned w →
  (∀ l m r, h' !! l = Some m → region_of m = Some r →
            ∃ m0, objs w !! f l = Some m0 ∧ region_of m0 = Some r) →
  (∀ l1 l2 m1 m2 r, l1 ≠ l2 → h' !! l1 = Some m1 → h' !! l2 = Some m2 →
                    region_of m1 = Some r → region_of m2 = Some r → f l1 ≠ f l2) →
  owned {| objs := h'; os := os w |}.
Proof.
  intros [I1 I2] Hfrom Hinj. split; cbn [objs os].
  - intros l m r Hl Hr. destruct (Hfrom l m r Hl Hr) as (m0 & Hl0 & Hr0).
    by eapply I1.
  - intros l1 l2 m1 m2 r Hne Hl1 Hl2 Hr1 Hr2.
    destruct (Hfrom l1 m1 r Hl1 Hr1) as (n1 & Hn1 & Hrn1).
    destruct (Hfrom l2 m2 r Hl2 Hr2) as (n2 & Hn2 & Hrn2).
    apply (I2 (f l1) (f l2) n1 n2 r); try done.
    by apply (Hinj l1 l2 m1 m2 r).
Qed.

Lemma owned_move_new (w : World) (l src : nat) (other : Mapping) :
  owned w → objs w !! l = None → objs w !! src = Some other →
  owned {| objs := <[l := fst (Mapping_move other)]>
                     (<[src := snd (Mapping_move other)]> (objs w));
           os := os w |}.
Proof.
  intros Hw Hl Hsrc.
  assert (l ≠ src) as Hne by (intros ->; congruence).
  assert (Mapping_move other = (other, Mapping_default)) as -> by by destruct other.
  cbn [fst snd].
  apply owned_rename with (f := λ x, if decide (x = l) then src else x); [done| |].
  - intros x m r Hx Hr. destruct (decide (x = l)) as [->|Hxl].
    + rewrite lookup_insert_eq in Hx. injection Hx as <-. by exists other.
    + rewrite lookup_insert_ne in Hx by done.
      destruct (decide (x = src)) as [->|Hxs].
      * rewrite lookup_insert_eq in Hx. by injection Hx as <-.
      * rewrite lookup_insert_ne in Hx by done. by exists m.
  - intros x1 x2 m1 m2 r Hx Hx1 Hx2 Hr1 Hr2.
    destruct (decide (x1 = l)) as [->|H1], (decide (x2 = l)) as [->|H2]; try done.
    + rewrite lookup_insert_ne in Hx2 by done. intros <-.
      rewrite lookup_insert_eq in Hx2. by injection Hx2 as <-.
    + rewrite lookup_insert_ne in Hx1 by done. intros ->.
      rewrite lookup_insert_eq in Hx1. by injection Hx1 as <-.
Qed.

Lemma owned_move_assign (w : World) (dst src : nat) (h' : gmap nat Mapping) :
  owned w → Mapping_move_assign dst src (objs w) = Some h' →
  owned {| objs := h'; os := os w |}.
Proof.
  intros Hw Hma.
  destruct (objs w !! dst) as [mt|] eqn:Ht.
  2:{ unfold Mapping_move_assign in Hma. by rewrite Ht in Hma. }
  destruct (objs w !! src) as [mo|] eqn:Ho.
  2:{ unfold Mapping_move_assign in Hma. by rewrite Ht, Ho in Hma. }
  destruct (decide (src = dst)) as [->|Hne].
  { rewrite (Mapping_move_assign_self _ _ _ Ht) in Hma. injection Hma as <-.
    by destruct w. }
  rewrite (Mapping_move_assign_distinct _ _ _ _ _ Hne Ht Ho) in Hma.
  injection Hma as <-.
  apply owned_rename
    with (f := λ x, if decide (x = dst) then src else if decide (x = src) then dst else x);
    [done| |].
  - intros x m r Hx Hr. destruct (decide (x = dst)) as [->|Hxd].
    + rewrite lookup_insert_eq in Hx. injection Hx as <-. by exists mo.
    + rewrite lookup_insert_ne in Hx by done.
      destruct (decide (x = src)) as [->|Hxs].
      * rewrite lookup_insert_eq in Hx. injection Hx as <-. by exists mt.
      * rewrite lookup_insert_ne in Hx by done. by exists m.
  - intros x1 x2 m1 m2 r Hx _ _ _ _.
    repeat case_decide; subst; congruence.
Qed.

Section Run.
Variable cfg : Build.
Variable orc : Oracle.

Lemma construct_keeps (l : nat) (p : Prog Mapping) (w : World) :
  owned w →
  (∀ os, match run orc p os with
         | Returned m os' => handover None os os' (region_of m)
         | Aborted _ os' => strays os' = strays os
         end) →
  step_keeps w (construct orc l p w).
Proof.
  intros Hw Hp. unfold construct.
  destruct (objs w !! l) eqn:Hl; [done|].
  specialize (Hp (os w)). destruct (run orc p (os w)) as [m os'|msg os']; [|done].
  split; [|apply Hp]. apply owned_update with None; [done| by rewrite Hl |done].
Qed.

Lemma step_owned (c : Cmd) (w : World) : owned w → step_keeps w (step cfg orc c w).
Proof.
  intros Hw. destruct c as [l a s|l s|l|l src|dst src|l|l]; cbn [step].
  - apply construct_keeps; [done|]. intros os. apply Mapping_at_handover.
  - apply construct_keeps; [done|]. intros os. apply Mapping_at_handover.
  - apply construct_keeps; [done|]. intros os. cbn. apply handover_none.
  - destruct (objs w !! l) eqn:Hl; [done|].
    destruct (objs w !! src) as [other|] eqn:Hs; [|done].
    pose proof (owned_move_new w l src other Hw Hl Hs) as H.
    destruct (Mapping_move other) as [this other']. by split.
  - destruct (Mapping_move_assign dst src (objs w)) as [h'|] eqn:Hma; [|done].
    split; [|done]. by apply owned_move_assign with dst src.
  - destruct (objs w !! l) as [m|] eqn:Hl; [|done].
    destruct (operator_bool m) eqn:V; [|done].
    assert ((baseAddress m, size m) ∈ live (os w)) as Hlive.
    { apply (own_live w Hw l m); [done|]. by apply region_of_valid. }
    pose proof (clear_handover cfg orc m (os w) V Hlive) as H.
    destruct (run orc (clear cfg m) (os w)) as [m' os'|msg os']; [|done].
    split; [|apply H]. apply owned_update with (region_of m); [done| by rewrite Hl |done].
  - destruct (objs w !! l) as [m|] eqn:Hl; [|done].
    pose proof (destroy_handover cfg orc m (os w) (λ r, own_live w Hw l m r Hl)) as H.
    destruct (run orc (Mapping_destroy cfg m) (os w)) as [[] os'|msg os']; [|done].
    split; [|apply H]. by apply owned_delete with m.
Qed.

Lemma exec_owned (cs : list Cmd) (w : World) :
  owned w →
  strays (result_os (exec cfg orc cs w)) = strays (os w) ∧
  match exec cfg orc cs w with Running w' => owned w' | _ => True end.
Proof.
  revert w. induction cs as [|c cs IH]; intros w Hw; [done|].
  cbn [exec]. pose proof (step_owned c w Hw) as Hc.
  destruct (step cfg orc c w) as [w'|msg os'|w']; cbn [step_keeps] in Hc.
  - destruct Hc as [Hw' Hs]. destruct (IH w' Hw') as [IH1 IH2].
    split; [by rewrite IH1|done].
  - done.
  - by subst.
Qed.

Lemma destroy_trace (this : Mapping) (os : OS) :
  since os (final_os (run orc (Mapping_destroy cfg this) os)) =
  if operator_bool this
  then [(Munmap (baseAddress this) (size this),
         answer orc os (Munmap (baseAddress this) (size this)))]
  else [].
Proof.
  unfold Mapping_destroy. destruct (operator_bool this).
  - rewrite run_bind, run_syscall, run_assert.
    destruct (NDEBUG cfg || _); cbn [final_os]; by since_simpl.
  - cbn [run final_os]. apply since_refl.
Qed.

Lemma destroy_table (this : Mapping) (os : OS) :
  live (final_os (run orc (Mapping_destroy cfg this) os)) =
  if operator_bool this &&
     bool_decide (answer orc os (Munmap (baseAddress this) (size this)) = 0)
  then unmap (baseAddress this, size this) (live os)
  else live os.
Proof.
  unfold Mapping_destroy. destruct (operator_bool this); [|done].
  rewrite run_bind, run_syscall, run_assert. cbn [andb].
  destruct (NDEBUG cfg || _); cbn [final_os]; rewrite kernel_munmap_table;
    by case_decide; case_bool_decide.
Qed.

End Run.

(** C8. The destructor calls [munmap] -- once, on the object's own region --
    exactly when the object is valid, and when that call returns 0 the
    region leaves the kernel's table; on a default-constructed object, on what a failed construction or
    a move construction leaves behind, it makes no system call at all.
    Along every client run of constructions, moves, [clear]s and
    destructions, started with no objects, no [munmap] is ever issued for a
    region that is not live at that moment (none is released twice), and no
    two objects ever claim the same region. *)
Theorem release_once (cfg : Build) (orc : Oracle) :
  (∀ (this : Mapping) (os : OS),
     since os (final_os (run orc (Mapping_destroy cfg this) os)) =
       (if operator_bool this
        then [(Munmap (baseAddress this) (size this),
               answer orc os (Munmap (baseAddress this) (size this)))]
        else []) ∧
     live (final_os (run orc (Mapping_destroy cfg this) os)) =
       (if operator_bool this &&
           bool_decide (answer orc os (Munmap (baseAddress this) (size this)) = 0)
        then unmap (baseAddress this, size this) (live os)
        else live os)) ∧
  Mapping_destroy cfg Mapping_default = Ret tt ∧
  (∀ s : Z, Mapping_destroy cfg (failed s) = Ret tt) ∧
  (∀ other : Mapping, Mapping_destroy cfg (snd (Mapping_move other)) = Ret tt) ∧
  (∀ (cs : list Cmd) (os0 : OS),
     strays (result_os (exec cfg orc cs (start os0))) = strays os0 ∧
     match exec cfg orc cs (start os0) with
     | Running w => owned w
     | _ => True
     end).
Proof.
  split_and!; try done.
  - intros this os. split; [apply destroy_trace | apply destroy_table].
  - intros cs os0. apply (exec_owned cfg orc cs (start os0)). apply owned_start.
Qed.

(** ** Sample runs *)

(** Two objects, an exchange, a move, a [clear] and three destructions on a
    platform that clears by remapping: every region is released, once. *)
Example sample_lifecycle :
  let r := exec {| platform := Apple; NDEBUG := false |} obliging
             [New 1 1048576 4096; NewSized 2 8192; MoveAssign 1 2; MoveNew 3 1;
              Clear 3; Delete 1; Delete 2; Delete 3]
             (start boot) in
  live (result_os r) = [] ∧ strays (result_os r) = [] ∧
  filter (λ e, is_munmap e.1 = true) (trace (result_os r)) =
    [(Munmap 1052672 8192, 0); (Munmap 1048576 4096, 0); (Munmap 1052672 8192, 0)].
Proof. by vm_compute. Qed.

(** A second request for an address that is still mapped fails and leaves
    the first object alone. *)
Example sample_address_taken :
  exists os',
    exec {| platform := Linux true; NDEBUG := false |} obliging
      [New 1 1048576 4096; New 2 1048576 4096] (start boot)
    = Running {| objs := {[ 1%nat := {| baseAddress := 1048576; size := 4096 |};
                            2%nat := failed 4096 ]};
                 os := os' |} ∧
    live os' = [(1048576, 4096)].
Proof. eexists. split; by vm_compute. Qed.

(** On Linux [clear] keeps the object as it is. *)
Example sample_clear_linux :
  ∃ os',
    run obliging (clear {| platform := Linux true; NDEBUG := false |}
                    {| baseAddress := 1048576; size := 4096 |})
        {| live := [(1048576, 4096)]; trace := []; strays := [] |}
    = Returned {| baseAddress := 1048576; size := 4096 |} os' ∧
    live os' = [(1048576, 4096)].
Proof. eexists. split; by vm_compute. Qed.

(** * Further properties of the class *)

#[local] Set Warnings "-clear-no-such-hyp".

(** ** Construction *)

(** X1. A valid object comes out of the constructor only with the requested
    size, at the requested address when one was requested, on a region that
    overlapped nothing live and is now the newest entry of the kernel's
    table. *)
Theorem constructed_mapping_is_fresh
    (cfg : Build) (orc : Oracle) (os : OS) (addr s : Z) (m : Mapping) (os' : OS) :
  run orc (Mapping_at cfg addr s) os = Returned m os' →
  operator_bool m = true →
  getSize m = Ret s ∧
  (addr ≠ 0 → baseAddress m = addr) ∧
  placeable os (baseAddress m) s ∧
  live os' = (baseAddress m, s) :: live os.
Proof.
  intros R V.
  destruct (Mapping_at_valid cfg orc addr s os m os' R V) as (Hs & Hp & Ha & Hl).
  unfold getSize. by rewrite Hs.
Qed.

Lemma constructed_mapping_is_fresh_witness :
  getSize {| baseAddress := 65536; size := 8192 |} = Ret 8192 ∧
  ((0:Z) ≠ 0 → baseAddress {| baseAddress := 65536; size := 8192 |} = 0) ∧
  placeable boot (baseAddress {| baseAddress := 65536; size := 8192 |}) 8192 ∧
  live {| live := [(65536, 8192)];
          trace := [(Madvise 65536 8192 [MADV_NOHUGEPAGE; MADV_DONTFORK; MADV_RANDOM], 0);
                    (Mmap 0 8192 [PROT_READ; PROT_WRITE]
                       [MAP_ANON; MAP_PRIVATE; MAP_NORESERVE], 65536)];
          strays := [] |}
  = (baseAddress {| baseAddress := 65536; size := 8192 |}, 8192) :: live boot.
Proof.
  apply (constructed_mapping_is_fresh
           {| platform := Linux true; NDEBUG := false |} obliging boot 0 8192);
    vm_compute; reflexivity.
Defined.

(** X2. When the kernel maps the region -- anywhere if no address was
    requested, at the requested address otherwise -- and accepts the
    platform's hint, the constructor returns a valid object with that
    address and the requested size. *)
Theorem construction_succeeds
    (cfg : Build) (orc : Oracle) (os : OS) (addr s : Z) :
  let a := answer orc os (mmap_call cfg (failed s) addr) in
  let os1 := snd (kernel orc os (mmap_call cfg (failed s) addr)) in
  a ≠ MAP_FAILED → addr = 0 ∨ a = addr →
  (∀ c msg, hint_call cfg {| baseAddress := a; size := s |} = Some (c, msg) →
            answer orc os1 c = 0) →
  ∃ m os',
    run orc (Mapping_at cfg addr s) os = Returned m os' ∧
    operator_bool m = true ∧ baseAddress m = a ∧ size m = s.
Proof.
  intros a os1 Ha Hat Hh.
  destruct (Mapping_at_succeeds cfg orc addr s os Ha Hat Hh) as [os' R].
  eexists _, os'. split_and!; [exact R| |done..].
  unfold operator_bool. cbn. by apply bool_decide_eq_true_2.
Qed.

Lemma construction_succeeds_witness :
  ∃ m os',
    run obliging (Mapping_at {| platform := FreeBSD; NDEBUG := false |} 1048576 4096) boot
      = Returned m os' ∧
    operator_bool m = true ∧ baseAddress m = 1048576 ∧ size m = 4096.
Proof.
  apply (construction_succeeds
           {| platform := FreeBSD; NDEBUG := false |} obliging boot 1048576 4096).
  - vm_compute. discriminate.
  - right. reflexivity.
  - intros c msg [= <- <-]. reflexivity.
Defined.

(** X3. A request for an address whose range overlaps a live region never
    yields a valid object, whatever the kernel answers.  The constructor
    returns an invalid object, and then the kernel's table is as before
    whenever the kernel refused the mapping or unmapped the misplaced
    region; or, in a build with assertions only, it stops in
    "munmap failed" because the kernel would not unmap the misplaced
    region. *)
Theorem address_in_use_never_valid
    (cfg : Build) (orc : Oracle) (os : OS) (addr s : Z) (r : region) :
  let a := answer orc os (mmap_call cfg (failed s) addr) in
  let os1 := snd (kernel orc os (mmap_call cfg (failed s) addr)) in
  let rc := answer orc os1 (Munmap a s) in
  addr ≠ 0 → r ∈ live os → overlaps (addr, s) r →
  match run orc (Mapping_at cfg addr s) os with
  | Returned m os' =>
      m = failed s ∧ strays os' = strays os ∧
      (a = MAP_FAILED ∨ rc = 0 → live os' = live os)
  | Aborted msg _ =>
      msg = "munmap failed"%string ∧ NDEBUG cfg = false ∧ a ≠ MAP_FAILED ∧ rc ≠ 0
  end.
Proof.
  cbv zeta. intros H0 Hr Hov. rewrite Mapping_at_cases.
  destruct (answer_mmap_cases orc os addr s [PROT_READ; PROT_WRITE]
              (mmap_flags cfg addr)) as [Hf|Hp];
    cbv zeta in *; fold (mmap_call cfg (failed s) addr) in *;
    set (a := answer orc os _) in *; set (os1 := snd (kernel orc os _));
    set (rc := answer orc os1 (Munmap a s)).
  - rewrite decide_True by done. split; [done|].
    destruct (kernel_mmap_failed orc os addr s [PROT_READ; PROT_WRITE]
                (mmap_flags cfg addr) Hf) as [Hl Hs].
    split; [exact Hs|]. intros _. exact Hl.
  - assert (a ≠ MAP_FAILED) as Ha by (destruct Hp as (? & ? & ? & _); lia).
    assert (addr ≠ a) as Hne.
    { intros E. destruct Hp as (_ & _ & _ & Hall).
      rewrite Forall_forall in Hall. apply (Hall r Hr). by rewrite <- E. }
    rewrite decide_False, decide_True by done.
    assert (live (snd (kernel orc os1 (Munmap a s))) =
              (if decide (rc = 0) then live os else (a, s) :: live os) ∧
            strays (snd (kernel orc os1 (Munmap a s))) = strays os) as [Hl Hs].
    { destruct (kernel_mmap_munmap orc os addr s [PROT_READ; PROT_WRITE]
                  (mmap_flags cfg addr) Ha) as (Hl & Hs & _). by split. }
    destruct (NDEBUG cfg) eqn:Hn; cbn [orb].
    + split; [done|]. split; [exact Hs|]. intros [?|Hrc]; [done|].
      by rewrite Hl, decide_True.
    + case_bool_decide as Hrc.
      * split; [done|]. split; [exact Hs|]. intros _. by rewrite Hl, decide_True.
      * done.
Qed.

Lemma address_in_use_never_valid_witness :
  match run clinging (Mapping_at {| platform := Apple; NDEBUG := false |} 1048576 8192)
          {| live := [(1052672, 4096)]; trace := []; strays := [] |} with
  | Returned m os' =>
      m = failed 8192 ∧ strays os' = [] ∧
      (answer clinging {| live := [(1052672, 4096)]; trace := []; strays := [] |}
         (mmap_call {| platform := Apple; NDEBUG := false |} (failed 8192) 1048576)
       = MAP_FAILED ∨
       answer clinging
         (snd (kernel clinging {| live := [(1052672, 4096)]; trace := []; strays := [] |}
                 (mmap_call {| platform := Apple; NDEBUG := false |} (failed 8192) 1048576)))
         (Munmap
            (answer clinging {| live := [(1052672, 4096)]; trace := []; strays := [] |}
               (mmap_call {| platform := Apple; NDEBUG := false |} (failed 8192) 1048576))
            8192) = 0 →
       live os' = [(1052672, 4096)])
  | Aborted msg _ =>
      msg = "munmap failed"%string ∧ false = false ∧
      answer clinging {| live := [(1052672, 4096)]; trace := []; strays := [] |}
        (mmap_call {| platform := Apple; NDEBUG := false |} (failed 8192) 1048576)
      ≠ MAP_FAILED ∧
      answer clinging
        (snd (kernel clinging {| live := [(1052672, 4096)]; trace := []; strays := [] |}
                (mmap_call {| platform := Apple; NDEBUG := false |} (failed 8192) 1048576)))
        (Munmap
           (answer clinging {| live := [(1052672, 4096)]; trace := []; strays := [] |}
              (mmap_call {| platform := Apple; NDEBUG := false |} (failed 8192) 1048576))
           8192) ≠ 0
  end.
Proof.
  apply (address_in_use_never_valid
           {| platform := Apple; NDEBUG := false |} clinging
           {| live := [(1052672, 4096)]; trace := []; strays := [] |}
           1048576 8192 (1052672, 4096)).
  - discriminate.
  - apply list_elem_of_here.
  - unfold overlaps; cbn; lia.
Defined.

(** X4. The flag word of [try_map] always has [MAP_ANON] and [MAP_PRIVATE];
    it has [MAP_NORESERVE] exactly on Linux; it asks for a fixed placement
    only when an address is requested; and it never has [MAP_FIXED] without
    [MAP_EXCL], so a request can never replace an existing mapping. *)
Theorem mmap_flags_never_replace (cfg : Build) (addr : Z) :
  MAP_ANON ∈ mmap_flags cfg addr ∧
  MAP_PRIVATE ∈ mmap_flags cfg addr ∧
  (MAP_NORESERVE ∈ mmap_flags cfg addr ↔ is_linux (platform cfg) = true) ∧
  (MAP_FIXED ∈ mmap_flags cfg addr → MAP_EXCL ∈ mmap_flags cfg addr) ∧
  (MAP_FIXED ∈ mmap_flags cfg addr ∨ MAP_FIXED_NOREPLACE ∈ mmap_flags cfg addr →
   addr ≠ 0).
Proof.
  assert (∀ (f : mflag) (l : list mflag), bool_decide (f ∈ l) = true → f ∈ l) as Hin
    by (intros f l; apply bool_decide_eq_true_1).
  assert (∀ (f : mflag) (l : list mflag) (P : Prop),
            bool_decide (f ∈ l) = false → f ∈ l → P) as Hout.
  { intros f l P E Hf. apply bool_decide_eq_false_1 in E. by destruct E. }
  unfold mmap_flags.
  destruct (platform cfg) as [[]| | |]; cbn [is_linux andb app];
    destruct (bool_decide (addr ≠ 0)) eqn:E;
    try apply bool_decide_eq_true in E;
    split_and!; try split;
    first [ done
          | by apply Hin
          | by apply Hout
          | by (intros [H|H]; revert H; apply Hout)
          | by (intros _; apply Hin)
          | by intros _ ].
Qed.

Lemma mmap_flags_never_replace_witness :
  MAP_ANON ∈ mmap_flags {| platform := FreeBSD; NDEBUG := false |} 1048576 ∧
  MAP_PRIVATE ∈ mmap_flags {| platform := FreeBSD; NDEBUG := false |} 1048576 ∧
  (MAP_NORESERVE ∈ mmap_flags {| platform := FreeBSD; NDEBUG := false |} 1048576 ↔
   is_linux FreeBSD = true) ∧
  (MAP_FIXED ∈ mmap_flags {| platform := FreeBSD; NDEBUG := false |} 1048576 →
   MAP_EXCL ∈ mmap_flags {| platform := FreeBSD; NDEBUG := false |} 1048576) ∧
  (MAP_FIXED ∈ mmap_flags {| platform := FreeBSD; NDEBUG := false |} 1048576 ∨
   MAP_FIXED_NOREPLACE ∈ mmap_flags {| platform := FreeBSD; NDEBUG := false |} 1048576 →
   (1048576:Z) ≠ 0).
Proof.
  apply (mmap_flags_never_replace {| platform := FreeBSD; NDEBUG := false |} 1048576).
Defined.

(** X5. [Mapping(size)] accepts any placement: it never calls [munmap], and
    when it returns, the object is invalid if the kernel refused the mapping
    and otherwise valid at the address the kernel chose. *)
Theorem sized_constructor_takes_any_address
    (cfg : Build) (orc : Oracle) (os : OS) (s : Z) :
  let a := answer orc os (mmap_call cfg (failed s) 0) in
  let o := run orc (Mapping_sized cfg s) os in
  (∀ c rc, (c, rc) ∈ since os (final_os o) → is_munmap c = false) ∧
  match o with
  | Returned m _ =>
      m = if decide (a = MAP_FAILED) then failed s
          else {| baseAddress := a; size := s |}
  | Aborted _ _ => a ≠ MAP_FAILED ∧ NDEBUG cfg = false
  end.
Proof.
  cbv zeta. unfold Mapping_sized. rewrite Mapping_at_cases.
  set (os1 := snd (kernel orc os _)). set (a := answer orc os _).
  destruct (decide (a = MAP_FAILED)) as [Ha|Ha].
  { split; [|done]. intros c rc Hin. cbn [final_os] in Hin. unfold os1 in Hin.
    since_simpl_in Hin. trace_cases Hin. done. }
  rewrite decide_False by (by intros [? _]).
  rewrite hygiene_run. destruct (hint_call cfg _) as [[c msg]|] eqn:Hc.
  - apply hint_call_is_hint in Hc.
    assert (is_munmap c = false) as Hcm by by destruct c.
    destruct (NDEBUG cfg) eqn:Hn; cbn [orb]; [|case_bool_decide];
      (split; [|done]); intros c' rc Hin; cbn [final_os] in Hin; unfold os1 in Hin;
      since_simpl_in Hin; trace_cases Hin; done.
  - split; [|done]. intros c rc Hin. cbn [final_os] in Hin. unfold os1 in Hin.
    since_simpl_in Hin. trace_cases Hin. done.
Qed.

Lemma sized_constructor_takes_any_address_witness :
  match run exhausted (Mapping_sized {| platform := Apple; NDEBUG := false |} 4096) boot with
  | Returned m _ =>
      m = if decide (answer exhausted boot
                       (mmap_call {| platform := Apple; NDEBUG := false |} (failed 4096) 0)
                     = MAP_FAILED)
          then failed 4096
          else {| baseAddress :=
                    answer exhausted boot
                      (mmap_call {| platform := Apple; NDEBUG := false |} (failed 4096) 0);
                  size := 4096 |}
  | Aborted _ _ =>
      answer exhausted boot
        (mmap_call {| platform := Apple; NDEBUG := false |} (failed 4096) 0) ≠ MAP_FAILED ∧
      false = false
  end.
Proof.
  apply (proj2 (sized_constructor_takes_any_address
                  {| platform := Apple; NDEBUG := false |} exhausted boot 4096)).
Defined.

(** ** Moves *)

(** X6. Move assignment is its own inverse: assigning the same pair of
    objects a second time restores the store. *)
Theorem move_assign_twice_restores (h h' : gmap nat Mapping) (this other : nat) :
  Mapping_move_assign this other h = Some h' →
  Mapping_move_assign this other h' = Some h.
Proof.
  intros Hma.
  destruct (h !! this) as [mt|] eqn:Ht.
  2:{ unfold Mapping_move_assign in Hma. by rewrite Ht in Hma. }
  destruct (h !! other) as [mo|] eqn:Ho.
  2:{ unfold Mapping_move_assign in Hma. by rewrite Ht, Ho in Hma. }
  destruct (decide (other = this)) as [->|Hne].
  { rewrite (Mapping_move_assign_self _ _ _ Ht) in Hma. injection Hma as <-.
    by apply Mapping_move_assign_self with mt. }
  rewrite (Mapping_move_assign_distinct _ _ _ _ _ Hne Ht Ho) in Hma.
  injection Hma as <-.
  rewrite (Mapping_move_assign_distinct _ this other mo mt Hne).
  - f_equal. apply map_eq. intros i.
    destruct (decide (i = this)) as [->|Hi]; [by rewrite lookup_insert_eq|].
    destruct (decide (i = other)) as [->|Hj];
      repeat (rewrite lookup_insert_eq || rewrite lookup_insert_ne by done); done.
  - by rewrite lookup_insert_eq.
  - rewrite lookup_insert_ne by done. by rewrite lookup_insert_eq.
Qed.

Lemma move_assign_twice_restores_witness :
  Mapping_move_assign 1 2
    {[ 1%nat := {| baseAddress := 2097152; size := 8192 |}; 2%nat := failed 4096 ]}
  = Some {[ 1%nat := failed 4096; 2%nat := {| baseAddress := 2097152; size := 8192 |} ]}.
Proof.
  apply (move_assign_twice_restores
           {[ 1%nat := failed 4096; 2%nat := {| baseAddress := 2097152; size := 8192 |} ]}
           {[ 1%nat := {| baseAddress := 2097152; size := 8192 |}; 2%nat := failed 4096 ]}
           1%nat 2%nat).
  by vm_compute.
Defined.

(** X7. Move assignment does not depend on the direction: [a = std::move(b)]
    and [b = std::move(a)] leave the same store. *)
Theorem move_assign_is_symmetric (h : gmap nat Mapping) (a b : nat) :
  Mapping_move_assign a b h = Mapping_move_assign b a h.
Proof.
  destruct (h !! a) as [ma|] eqn:Ha.
  2:{ unfold Mapping_move_assign. rewrite Ha. cbn. by destruct (h !! b). }
  destruct (h !! b) as [mb|] eqn:Hb.
  2:{ unfold Mapping_move_assign. by rewrite Ha, Hb. }
  destruct (decide (b = a)) as [->|Hne]; [done|].
  rewrite (Mapping_move_assign_distinct h a b ma mb) by done.
  rewrite (Mapping_move_assign_distinct h b a mb ma) by done.
  f_equal. by apply insert_insert_ne.
Qed.

(** ** [clear] and aborts *)

(** X8. On Linux, [clear] of a valid object makes exactly one system call,
    [madvise(MADV_DONTNEED)] on the object's own range; it never unmaps,
    so the kernel's table is untouched whatever the kernel answers. *)
Theorem clear_on_linux_keeps_the_mapping
    (cfg : Build) (orc : Oracle) (os : OS) (this : Mapping) :
  is_linux (platform cfg) = true → operator_bool this = true →
  let o := run orc (clear cfg this) os in
  let c := Madvise (baseAddress this) (size this) [MADV_DONTNEED] in
  since os (final_os o) = [(c, answer orc os c)] ∧
  live (final_os o) = live os ∧ strays (final_os o) = strays os.
Proof.
  intros Hl V. cbv zeta. rewrite clear_run_linux by done.
  destruct (NDEBUG cfg || _); cbn [final_os]; split_and!; by since_simpl.
Qed.

Lemma clear_on_linux_keeps_the_mapping_witness :
  let cfg := {| platform := Linux false; NDEBUG := true |} in
  let this := {| baseAddress := 1048576; size := 4096 |} in
  let os := {| live := [(1048576, 4096)]; trace := []; strays := [] |} in
  let o := run no_hints (clear cfg this) os in
  let c := Madvise (baseAddress this) (size this) [MADV_DONTNEED] in
  since os (final_os o) = [(c, answer no_hints os c)] ∧
  live (final_os o) = live os ∧ strays (final_os o) = strays os.
Proof.
  apply (clear_on_linux_keeps_the_mapping
           {| platform := Linux false; NDEBUG := true |} no_hints
           {| live := [(1048576, 4096)]; trace := []; strays := [] |}
           {| baseAddress := 1048576; size := 4096 |});
    reflexivity.
Defined.

(** X9. Where [clear] unmaps and maps again: if the kernel unmaps the
    region, gives it back at the same address and accepts the hints, [clear]
    returns with the object unchanged, in every build. *)
Theorem clear_by_remap_returns_same_object
    (cfg : Build) (orc : Oracle) (os : OS) (this : Mapping) :
  is_linux (platform cfg) = false → operator_bool this = true →
  let os1 := snd (kernel orc os (Munmap (baseAddress this) (size this))) in
  answer orc os (Munmap (baseAddress this) (size this)) = 0 →
  answer orc os1 (mmap_call cfg (set_baseAddress this MAP_FAILED) (baseAddress this))
    = baseAddress this →
  (∀ os2 c, is_hint c = true → answer orc os2 c = 0) →
  ∃ os', run orc (clear cfg this) os = Returned this os'.
Proof.
  intros Hl V os1 Hu Ha Hh.
  assert (baseAddress this ≠ MAP_FAILED) as Hb by by apply bool_decide_eq_true in V.
  destruct (answer_mmap_cases orc os1 (baseAddress this) (size this)
              [PROT_READ; PROT_WRITE] (mmap_flags cfg (baseAddress this))) as [Hf|Hp].
  { exfalso. apply Hb. rewrite <- Ha. exact Hf. }
  rewrite clear_run_fallback by done. fold os1.
  rewrite Hu, bool_decide_eq_true_2, orb_true_r by done.
  rewrite try_map_run by done. rewrite Ha.
  rewrite decide_False by done.
  rewrite decide_False by (by intros [_ ?]).
  rewrite hygiene_run.
  assert (set_baseAddress (set_baseAddress this MAP_FAILED) (baseAddress this) = this)
    as -> by by destruct this.
  destruct (hint_call cfg this) as [[c msg]|] eqn:Hc.
  - apply hint_call_is_hint in Hc.
    rewrite (Hh _ c Hc), bool_decide_eq_true_2, orb_true_r by done.
    cbn [fst snd]. rewrite orb_true_r. by eexists.
  - cbn [fst snd]. rewrite orb_true_r. by eexists.
Qed.

Lemma clear_by_remap_returns_same_object_witness :
  ∃ os',
    run obliging (clear {| platform := Apple; NDEBUG := false |}
                    {| baseAddress := 1048576; size := 4096 |})
        {| live := [(1048576, 4096); (65536, 4096)]; trace := []; strays := [] |}
    = Returned {| baseAddress := 1048576; size := 4096 |} os'.
Proof.
  apply (clear_by_remap_returns_same_object
           {| platform := Apple; NDEBUG := false |} obliging
           {| live := [(1048576, 4096); (65536, 4096)]; trace := []; strays := [] |}
           {| baseAddress := 1048576; size := 4096 |}).
  - reflexivity.
  - reflexivity.
  - reflexivity.
  - by vm_compute.
  - intros os2 c Hc. by destruct c.
Defined.

(** X10. The constructor stops in an assertion only in a build with
    assertions, and only because the kernel refused a call: the hint on the
    new mapping, or -- only when an address was requested -- the [munmap] of
    a region placed elsewhere.  With [NDEBUG], or with a kernel that
    refuses neither, it always returns. *)
Theorem create_aborts_only_on_refused_call
    (cfg : Build) (orc : Oracle) (os : OS) (addr s : Z) :
  aborted (run orc (Mapping_at cfg addr s) os) →
  NDEBUG cfg = false ∧
  (hint_failed os (final_os (run orc (Mapping_at cfg addr s) os)) ∨
   (addr ≠ 0 ∧ munmap_failed os (final_os (run orc (Mapping_at cfg addr s) os)))).
Proof.
  rewrite Mapping_at_cases.
  set (os1 := snd (kernel orc os _)). set (a := answer orc os _).
  destruct (decide (a = MAP_FAILED)); [by intros (? & ? & ?)|].
  destruct (decide (addr ≠ 0 ∧ addr ≠ a)) as [[H0 _]|Hm].
  { destruct (NDEBUG cfg); cbn [orb]; [by intros (? & ? & ?)|].
    case_bool_decide as Hrc; [by intros (? & ? & ?)|].
    intros _. split; [done|]. right. split; [done|]. cbn [final_os].
    exists (Munmap a s), (answer orc os1 (Munmap a s)). split_and!; [|done..].
    unfold os1. since_simpl. apply list_elem_of_here. }
  rewrite hygiene_run. destruct (hint_call cfg _) as [[c msg]|] eqn:Hc;
    [|by intros (? & ? & ?)].
  apply hint_call_is_hint in Hc.
  destruct (NDEBUG cfg); cbn [orb]; [by intros (? & ? & ?)|].
  case_bool_decide as Hrc; [by intros (? & ? & ?)|].
  intros _. split; [done|]. left. cbn [final_os].
  exists c, (answer orc os1 c). split_and!; [|done..].
  unfold os1. since_simpl. apply list_elem_of_here.
Qed.

Lemma create_aborts_only_on_refused_call_witness :
  false = false ∧
  (hint_failed boot
     (final_os (run clinging
                  (Mapping_at {| platform := Apple; NDEBUG := false |} 1048576 4096) boot)) ∨
   ((1048576:Z) ≠ 0 ∧
    munmap_failed boot
      (final_os (run clinging
                   (Mapping_at {| platform := Apple; NDEBUG := false |} 1048576 4096) boot)))).
Proof.
  apply (create_aborts_only_on_refused_call
           {| platform := Apple; NDEBUG := false |} clinging boot 1048576 4096).
  eexists _, _. by vm_compute.
Defined.

(** ** Nothing leaks, nothing foreign is released *)

Section Transfer.
Variable orc : Oracle.

Lemma transfer_nothing (os : OS) : transfer None os os None.
Proof. split; [|done]. intros r. naive_solver. Qed.

Lemma transfer_same (rg : region) (os : OS) :
  rg ∈ live os → 0 < rg.2 → transfer (Some rg) os os (Some rg).
Proof.
  intros Hin Hlen. split.
  - intros r. split.
    + intros Hr. destruct (decide (r = rg)) as [->|Hne]; [by right|].
      left. split; [done|]. by intros [= ->].
    + intros [[Hr _]|[= ->]]; done.
  - intros r [= ->]. split; [done|by left].
Qed.

Lemma transfer_tables (old new : option region) (os os1 os2 : OS) :
  live os2 = live os1 → transfer old os os1 new → transfer old os os2 new.
Proof.
  intros Hl [H1 H2]. split; [|done]. intros r. rewrite Hl. apply H1.
Qed.

Lemma transfer_trans (old new : option region) (os os1 os2 : OS) :
  transfer old os os1 None → transfer None os1 os2 new → transfer old os os2 new.
Proof.
  intros [A1 _] [B1 B2]. split.
  - intros r. rewrite B1, A1. naive_solver.
  - intros r Hr. destruct (B2 r Hr) as [Hlen [?|Hno]]; [done|]. split; [done|].
    destruct (decide (old = Some r)) as [?|Hne]; [by left|right].
    intros Hin. apply Hno. apply A1. by left.
Qed.

Lemma transfer_hint (old new : option region) (os os1 : OS) (c : syscall) :
  is_hint c = true →
  transfer old os os1 new → transfer old os (snd (kernel orc os1 c)) new.
Proof.
  intros Hc. destruct (kernel_hint orc os1 c Hc) as [Hl _].
  by apply transfer_tables.
Qed.

Lemma transfer_mmap (os : OS) (addr len : Z) p fl :
  let a := answer orc os (Mmap addr len p fl) in
  transfer None os (snd (kernel orc os (Mmap addr len p fl)))
           (if decide (a = MAP_FAILED) then None else Some (a, len)).
Proof.
  intros a. destruct (decide (a = MAP_FAILED)) as [Ha|Ha].
  - destruct (kernel_mmap_failed orc os addr len p fl Ha) as [Hl _].
    apply transfer_tables with os; [done|]. apply transfer_nothing.
  - destruct (kernel_mmap_mapped orc os addr len p fl Ha) as [Hl _].
    fold a in Hl.
    destruct (answer_mmap_cases orc os addr len p fl) as [?|Hp]; [done|].
    fold a in Hp. split.
    + intros r. rewrite Hl, elem_of_cons. naive_solver.
    + intros r [= <-]. split; [apply Hp|]. right. by apply placeable_fresh.
Qed.

Lemma transfer_munmap (os : OS) (rg : region) :
  answer orc os (Munmap rg.1 rg.2) = 0 →
  transfer (Some rg) os (snd (kernel orc os (Munmap rg.1 rg.2))) None.
Proof.
  intros Hrc. destruct rg as [b s]. cbn [fst snd] in *. split; [|done].
  intros r. rewrite kernel_munmap_table, decide_True by done.
  unfold unmap. rewrite list_elem_of_filter. naive_solver.
Qed.

Lemma transfer_mmap_munmap (os : OS) (addr len : Z) p fl :
  let a := answer orc os (Mmap addr len p fl) in
  let os1 := snd (kernel orc os (Mmap addr len p fl)) in
  a ≠ MAP_FAILED → answer orc os1 (Munmap a len) = 0 →
  transfer None os (snd (kernel orc os1 (Munmap a len))) None.
Proof.
  intros a os1 Ha Hrc.
  destruct (kernel_mmap_munmap orc os addr len p fl Ha) as (Hl & _ & _).
  cbv zeta in Hl. fold a os1 in Hl. rewrite decide_True in Hl by done.
  apply transfer_tables with os; [done|]. apply transfer_nothing.
Qed.

End Transfer.

Section MethodsTransfer.
Variable cfg : Build.
Variable orc : Oracle.
Hypothesis Hsafe :
  NDEBUG cfg = false ∨ ∀ os c, is_munmap c = true → answer orc os c = 0.

(** Where the method went on after a [munmap], the call had returned 0. *)
Lemma munmap_honoured (os : OS) (a len : Z) :
  NDEBUG cfg || bool_decide (answer orc os (Munmap a len) = 0) = true →
  answer orc os (Munmap a len) = 0.
Proof.
  destruct Hsafe as [-> | H].
  - cbn [orb]. apply bool_decide_eq_true_1.
  - intros _. by apply H.
Qed.

Lemma try_map_transfer (this : Mapping) (addr : Z) (os : OS) :
  baseAddress this = MAP_FAILED →
  match run orc (try_map cfg this addr) os with
  | Returned r os' => transfer None os os' (region_of (snd r))
  | Aborted _ _ => True
  end.
Proof.
  intros Hb. rewrite try_map_run by done.
  pose proof (transfer_mmap orc os addr (size this) [PROT_READ; PROT_WRITE]
                (mmap_flags cfg addr)) as Hmap.
  cbv zeta in Hmap. fold (mmap_call cfg this addr) in Hmap.
  set (os1 := snd (kernel orc os _)) in *. set (a := answer orc os _) in *.
  destruct (decide (a = MAP_FAILED)) as [Ha|Ha].
  { cbn [snd]. by rewrite region_of_failed. }
  destruct (decide (addr ≠ 0 ∧ addr ≠ a)) as [Hm|Hm].
  { destruct (NDEBUG cfg || bool_decide _) eqn:E; [|done].
    cbn [snd]. rewrite region_of_failed.
    apply (transfer_mmap_munmap orc os addr (size this) [PROT_READ; PROT_WRITE]
             (mmap_flags cfg addr)); [done|]. by apply munmap_honoured. }
  rewrite hygiene_run. destruct (hint_call cfg _) as [[c msg]|] eqn:Hc.
  - apply hint_call_is_hint in Hc.
    destruct (NDEBUG cfg || bool_decide _); [|done].
    cbn [snd]. rewrite region_of_mapped by done. by apply transfer_hint.
  - cbn [snd]. by rewrite region_of_mapped.
Qed.

Lemma Mapping_at_transfer (addr s : Z) (os : OS) :
  match run orc (Mapping_at cfg addr s) os with
  | Returned m os' => transfer None os os' (region_of m)
  | Aborted _ _ => True
  end.
Proof.
  rewrite Mapping_at_run.
  pose proof (try_map_transfer (failed s) addr os eq_refl) as H.
  by destruct (run orc (try_map cfg (failed s) addr) os).
Qed.

Lemma destroy_transfer (this : Mapping) (os : OS) :
  match run orc (Mapping_destroy cfg this) os with
  | Returned _ os' => transfer (region_of this) os os' None
  | Aborted _ _ => True
  end.
Proof.
  unfold Mapping_destroy.
  destruct (operator_bool this) eqn:V.
  - rewrite region_of_valid by done.
    rewrite run_bind, run_syscall, run_assert.
    destruct (NDEBUG cfg || _) eqn:E; [|done].
    apply (transfer_munmap orc os (baseAddress this, size this)).
    by apply munmap_honoured.
  - rewrite region_of_invalid by done. apply transfer_nothing.
Qed.

Lemma clear_transfer (this : Mapping) (os : OS) :
  operator_bool this = true →
  (baseAddress this, size this) ∈ live os → 0 < size this →
  match run orc (clear cfg this) os with
  | Returned m os' => transfer (region_of this) os os' (region_of m)
  | Aborted _ _ => True
  end.
Proof.
  intros V Hlive Hlen. rewrite (region_of_valid this V).
  destruct (is_linux (platform cfg)) eqn:Hl.
  - rewrite clear_run_linux by done.
    destruct (NDEBUG cfg || _); [|done].
    rewrite (region_of_valid this V).
    apply transfer_hint; [done|]. by apply transfer_same.
  - rewrite clear_run_fallback by done.
    destruct (NDEBUG cfg || bool_decide _) eqn:E; [|done].
    pose proof (transfer_munmap orc os (baseAddress this, size this)
                  (munmap_honoured _ _ _ E)) as H1.
    cbn [fst snd] in H1.
    set (os1 := snd (kernel orc os _)) in *.
    pose proof (try_map_transfer (set_baseAddress this MAP_FAILED)
                  (baseAddress this) os1 eq_refl) as H2.
    destruct (run orc (try_map cfg _ _) os1) as [r os2|msg os2]; [|done].
    destruct (NDEBUG cfg || fst r); [|done].
    by apply transfer_trans with os1.
Qed.

End MethodsTransfer.

Lemma accounted_start (os : OS) : accounted (live os) (start os).
Proof.
  split.
  - intros r. split; [by left|]. intros [?|(l & m & Hl & _)]; [done|].
    cbn in Hl. by rewrite lookup_empty in Hl.
  - intros r (l & m & Hl & _). cbn in Hl. by rewrite lookup_empty in Hl.
Qed.

Lemma claimed_update (w : World) (l : nat) (m' : Mapping) (os' : OS) (r : region) :
  claimed {| objs := <[l := m']> (objs w); os := os' |} r ↔
  region_of m' = Some r ∨
  ∃ l' m, l' ≠ l ∧ objs w !! l' = Some m ∧ region_of m = Some r.
Proof.
  unfold claimed; cbn [objs]. split.
  - intros (l' & m & Hl' & Hr). destruct (decide (l' = l)) as [->|Hne].
    + rewrite lookup_insert_eq in Hl'. injection Hl' as <-. by left.
    + rewrite lookup_insert_ne in Hl' by done. right. by exists l', m.
  - intros [Hr|(l' & m & Hne & Hl' & Hr)].
    + exists l, m'. by rewrite lookup_insert_eq.
    + exists l', m. by rewrite lookup_insert_ne.
Qed.

Lemma claimed_delete (w : World) (l : nat) (os' : OS) (r : region) :
  claimed {| objs := delete l (objs w); os := os' |} r ↔
  ∃ l' m, l' ≠ l ∧ objs w !! l' = Some m ∧ region_of m = Some r.
Proof.
  unfold claimed; cbn [objs]. split.
  - intros (l' & m & Hl' & Hr). destruct (decide (l' = l)) as [->|Hne].
    + by rewrite lookup_delete_eq in Hl'.
    + rewrite lookup_delete_ne in Hl' by done. by exists l', m.
  - intros (l' & m & Hne & Hl' & Hr). exists l', m. by rewrite lookup_delete_ne.
Qed.

(** The bookkeeping common to updating and deleting the object at [l]:
    [mine] says whether the object at [l] claims [r] afterwards. *)
Lemma accounted_step (live0 : list region) (w w' : World) (l : nat)
    (old new : option region) :
  accounted live0 w → owned w →
  match objs w !! l with Some m => old = region_of m | None => old = None end →
  transfer old (os w) (os w') new →
  (∀ r, claimed w' r ↔
        new = Some r ∨ ∃ l' m, l' ≠ l ∧ objs w !! l' = Some m ∧ region_of m = Some r) →
  accounted live0 w'.
Proof.
  intros [A1 A2] Hw Hold [T1 T2] Hcl.
  assert (∀ r, old = Some r → claimed w r) as F1.
  { intros r ->. destruct (objs w !! l) as [m|] eqn:Hl; [|done]. by exists l, m. }
  assert (∀ r, claimed w r → old ≠ Some r →
               ∃ l' m, l' ≠ l ∧ objs w !! l' = Some m ∧ region_of m = Some r) as F2.
  { intros r (l' & m & Hl' & Hr) Hne. exists l', m. split_and!; [|done..].
    intros ->. rewrite Hl' in Hold. congruence. }
  assert (∀ r, (∃ l' m, l' ≠ l ∧ objs w !! l' = Some m ∧ region_of m = Some r) →
               claimed w r ∧ old ≠ Some r) as F3.
  { intros r (l' & m & Hne & Hl' & Hr). split; [by exists l', m|].
    by destruct (owned_others w l l' old m r Hw Hold Hne Hl' Hr). }
  split.
  - intros r. rewrite T1, Hcl. split.
    + intros [[Hin Hne]|Hn]; [|by right; left].
      apply A1 in Hin as [?|Hc]; [by left|]. right. right. by apply F2.
    + intros [H0|[Hn|Ho]].
      * destruct (decide (new = Some r)) as [?|Hnn]; [by right|]. left.
        split; [apply A1; by left|]. intros Ho.
        by destruct (A2 r (F1 r Ho)).
      * by right.
      * destruct (F3 r Ho) as [Hc Hne]. left. split; [apply A1; by right|done].
  - intros r Hc. apply Hcl in Hc as [Hn|Ho].
    + destruct (T2 r Hn) as [Hlen [Ho|Hno]]; split; try done.
      * by destruct (A2 r (F1 r Ho)).
      * intros H0. apply Hno. apply A1. by left.
    + apply A2. by apply F3.
Qed.

Lemma accounted_update (live0 : list region) (w : World) (l : nat)
    (old : option region) (m' : Mapping) (os' : OS) :
  accounted live0 w → owned w →
  match objs w !! l with Some m => old = region_of m | None => old = None end →
  transfer old (os w) os' (region_of m') →
  accounted live0 {| objs := <[l := m']> (objs w); os := os' |}.
Proof.
  intros Ha Hw Hold Ht.
  apply (accounted_step live0 w _ l old (region_of m')); try done.
  intros r. apply claimed_update.
Qed.

Lemma accounted_delete (live0 : list region) (w : World) (l : nat) (m : Mapping) (os' : OS) :
  accounted live0 w → owned w → objs w !! l = Some m →
  transfer (region_of m) (os w) os' None →
  accounted live0 {| objs := delete l (objs w); os := os' |}.
Proof.
  intros Ha Hw Hl Ht.
  apply (accounted_step live0 w _ l (region_of m) None); try done.
  - by rewrite Hl.
  - intros r. rewrite claimed_delete. naive_solver.
Qed.

Lemma accounted_same_claims (live0 : list region) (w : World) (h' : gmap nat Mapping) :
  accounted live0 w →
  (∀ r, claimed {| objs := h'; os := os w |} r ↔ claimed w r) →
  accounted live0 {| objs := h'; os := os w |}.
Proof.
  intros [A1 A2] Hc. split; cbn [os].
  - intros r. rewrite Hc. apply A1.
  - intros r Hr. apply A2. by apply Hc.
Qed.

Lemma claimed_move_new (w : World) (l src : nat) (other : Mapping) (r : region) :
  objs w !! l = None → objs w !! src = Some other →
  claimed {| objs := <[l := fst (Mapping_move other)]>
                       (<[src := snd (Mapping_move other)]> (objs w));
             os := os w |} r ↔ claimed w r.
Proof.
  intros Hl Hsrc.
  assert (l ≠ src) as Hne by (intros ->; congruence).
  assert (Mapping_move other = (other, Mapping_default)) as -> by by destruct other.
  unfold claimed; cbn [fst snd objs]. split.
  - intros (x & m & Hx & Hr). destruct (decide (x = l)) as [->|Hxl].
    + rewrite lookup_insert_eq in Hx. injection Hx as <-. by exists src, other.
    + rewrite lookup_insert_ne in Hx by done.
      destruct (decide (x = src)) as [->|Hxs].
      * rewrite lookup_insert_eq in Hx. by injection Hx as <-.
      * rewrite lookup_insert_ne in Hx by done. by exists x, m.
  - intros (x & m & Hx & Hr). destruct (decide (x = src)) as [->|Hxs].
    + exists l, other. rewrite lookup_insert_eq. split; congruence.
    + exists x, m. rewrite !lookup_insert_ne; [done|done|congruence].
Qed.

Lemma claimed_move_assign (w : World) (dst src : nat) (h' : gmap nat Mapping) (r : region) :
  Mapping_move_assign dst src (objs w) = Some h' →
  claimed {| objs := h'; os := os w |} r ↔ claimed w r.
Proof.
  intros Hma.
  destruct (objs w !! dst) as [mt|] eqn:Ht.
  2:{ unfold Mapping_move_assign in Hma. by rewrite Ht in Hma. }
  destruct (objs w !! src) as [mo|] eqn:Ho.
  2:{ unfold Mapping_move_assign in Hma. by rewrite Ht, Ho in Hma. }
  destruct (decide (src = dst)) as [->|Hne].
  { rewrite (Mapping_move_assign_self _ _ _ Ht) in Hma. by injection Hma as <-. }
  rewrite (Mapping_move_assign_distinct _ _ _ _ _ Hne Ht Ho) in Hma.
  injection Hma as <-. unfold claimed; cbn [objs]. split.
  - intros (x & m & Hx & Hr). destruct (decide (x = dst)) as [->|Hxd].
    + rewrite lookup_insert_eq in Hx. injection Hx as <-. by exists src, mo.
    + rewrite lookup_insert_ne in Hx by done.
      destruct (decide (x = src)) as [->|Hxs].
      * rewrite lookup_insert_eq in Hx. injection Hx as <-. by exists dst, mt.
      * rewrite lookup_insert_ne in Hx by done. by exists x, m.
  - intros (x & m & Hx & Hr). destruct (decide (x = dst)) as [->|Hxd].
    + exists src, mt. rewrite lookup_insert_ne, lookup_insert_eq by done.
      split; congruence.
    + destruct (decide (x = src)) as [->|Hxs].
      * exists dst, mo. rewrite lookup_insert_eq. split; congruence.
      * exists x, m. by rewrite !lookup_insert_ne.
Qed.

Section Accounting.
Variable cfg : Build.
Variable orc : Oracle.
Hypothesis Hsafe :
  NDEBUG cfg = false ∨ ∀ os c, is_munmap c = true → answer orc os c = 0.
Variable live0 : list region.

Lemma construct_accounted (l : nat) (p : Prog Mapping) (w : World) :
  owned w → accounted live0 w →
  (∀ os, match run orc p os with
         | Returned m os' => transfer None os os' (region_of m)
         | Aborted _ _ => True
         end) →
  match construct orc l p w with Running w' => accounted live0 w' | _ => True end.
Proof.
  intros Hw Ha Hp. unfold construct.
  destruct (objs w !! l) eqn:Hl; [done|].
  specialize (Hp (os w)). destruct (run orc p (os w)) as [m os'|msg os']; [|done].
  apply accounted_update with None; [done|done| by rewrite Hl |done].
Qed.

Lemma step_accounted (c : Cmd) (w : World) :
  owned w → accounted live0 w →
  match step cfg orc c w with Running w' => accounted live0 w' | _ => True end.
Proof.
  intros Hw Ha. destruct c as [l a s|l s|l|l src|dst src|l|l]; cbn [step].
  - apply construct_accounted; [done..|]. intros os. by apply Mapping_at_transfer.
  - apply construct_accounted; [done..|]. intros os. by apply Mapping_at_transfer.
  - apply construct_accounted; [done..|]. intros os. cbn. apply transfer_nothing.
  - destruct (objs w !! l) eqn:Hl; [done|].
    destruct (objs w !! src) as [other|] eqn:Hs; [|done].
    pose proof (λ r, claimed_move_new w l src other r Hl Hs) as Hc.
    destruct (Mapping_move other) as [this other']. cbn [fst snd] in Hc.
    by apply (accounted_same_claims live0 w).
  - destruct (Mapping_move_assign dst src (objs w)) as [h'|] eqn:Hma; [|done].
    apply (accounted_same_claims live0 w); [done|].
    intros r. by apply claimed_move_assign with dst src.
  - destruct (objs w !! l) as [m|] eqn:Hl; [|done].
    destruct (operator_bool m) eqn:V; [|done].
    assert (claimed w (baseAddress m, size m)) as Hc.
    { exists l, m. split; [done|]. by apply region_of_valid. }
    assert ((baseAddress m, size m) ∈ live (os w)) as Hlive.
    { apply (acc_live live0 w Ha). by right. }
    assert (0 < size m) as Hlen by apply (acc_fresh live0 w Ha _ Hc).
    pose proof (clear_transfer cfg orc Hsafe m (os w) V Hlive Hlen) as H.
    destruct (run orc (clear cfg m) (os w)) as [m' os'|msg os']; [|done].
    apply accounted_update with (region_of m); [done|done| by rewrite Hl |done].
  - destruct (objs w !! l) as [m|] eqn:Hl; [|done].
    pose proof (destroy_transfer cfg orc Hsafe m (os w)) as H.
    destruct (run orc (Mapping_destroy cfg m) (os w)) as [[] os'|msg os']; [|done].
    by apply accounted_delete with m.
Qed.

Lemma exec_accounted (cs : list Cmd) (w : World) :
  owned w → accounted live0 w →
  match exec cfg orc cs w with Running w' => accounted live0 w' | _ => True end.
Proof.
  revert w. induction cs as [|c cs IH]; intros w Hw Ha; [done|].
  cbn [exec]. pose proof (step_owned cfg orc c w Hw) as Hc.
  pose proof (step_accounted c w Hw Ha) as Hs.
  destruct (step cfg orc c w) as [w'|msg os'|w']; [|done..].
  destruct Hc as [Hw' _]. by apply IH.
Qed.

End Accounting.

(** X11. In a build with assertions, or with a kernel that never refuses
    [munmap]: after any client run of constructions, moves, [clear]s and
    destructions that has not been stopped, the regions live in the kernel
    are exactly those that were live before the run together with those the
    remaining objects claim: the class releases none but its own regions,
    and once its objects are gone it leaves no mapping behind. *)
Theorem no_leak_no_foreign_release
    (cfg : Build) (orc : Oracle) (cs : list Cmd) (os0 : OS) (w : World) :
  NDEBUG cfg = false ∨ (∀ os c, is_munmap c = true → answer orc os c = 0) →
  exec cfg orc cs (start os0) = Running w →
  (∀ r, r ∈ live (os w) ↔ r ∈ live os0 ∨ claimed w r) ∧
  (objs w = ∅ → ∀ r, r ∈ live (os w) ↔ r ∈ live os0).
Proof.
  intros Hsafe R.
  pose proof (exec_accounted cfg orc Hsafe (live os0) cs (start os0)
                (owned_start os0) (accounted_start os0)) as H.
  rewrite R in H. destruct H as [A1 A2]. split; [done|].
  intros He r. rewrite A1. split; [|by left].
  intros [?|(l & m & Hl & _)]; [done|]. rewrite He in Hl.
  by rewrite lookup_empty in Hl.
Qed.

Lemma no_leak_no_foreign_release_witness :
  let os0 := {| live := [(65536, 4096)]; trace := []; strays := [] |} in
  ∃ w,
    exec {| platform := Apple; NDEBUG := true |} obliging
      [New 1 1048576 4096; NewSized 2 8192; MoveAssign 1 2; Clear 1; Delete 2; Delete 1]
      (start os0) = Running w ∧
    (∀ r, r ∈ live (os w) ↔ r ∈ live os0 ∨ claimed w r) ∧
    (objs w = ∅ → ∀ r, r ∈ live (os w) ↔ r ∈ live os0).
Proof.
  cbv zeta. eexists. split; [by vm_compute|].
  apply (no_leak_no_foreign_release
           {| platform := Apple; NDEBUG := true |} obliging
           [New 1 1048576 4096; NewSized 2 8192; MoveAssign 1 2; Clear 1; Delete 2; Delete 1]
           {| live := [(65536, 4096)]; trace := []; strays := [] |}).
  - right. intros os c Hc. by destruct c.
  - by vm_compute.
Defined.

(** ** Releasing an address and taking it again *)

Lemma overlaps_sym (r1 r2 : region) : overlaps r1 r2 → overlaps r2 r1.
Proof. unfold overlaps. tauto. Qed.

Lemma pairwise_disjoint_unmap (l : list region) (rg : region) :
  pairwise_disjoint l → rg ∈ l →
  Forall (λ r', ¬ overlaps rg r') (unmap rg l).
Proof.
  induction l as [|r l IH]; intros Hpd Hin; [by apply elem_of_nil in Hin|].
  destruct Hpd as [Hr Hpd]. unfold unmap in *.
  destruct (decide (r = rg)) as [->|Hne].
  - rewrite filter_cons_False by (intros H; by apply H).
    rewrite Forall_forall in *. intros x Hx.
    apply list_elem_of_filter in Hx as [_ Hx]. by apply Hr.
  - rewrite filter_cons_True by done.
    apply elem_of_cons in Hin as [->|Hin]; [done|].
    constructor; [|by apply IH].
    rewrite Forall_forall in Hr. intros Ho. apply (Hr rg Hin). by apply overlaps_sym.
Qed.

(** X12. Once a valid object is destroyed and the kernel has unmapped its
    region ([munmap] returned 0), its address is free again: in a table
    without overlaps, if the kernel is then asked for the same range and
    grants it (and accepts the hint), the constructor returns an object
    equal to the destroyed one. *)
Theorem destroyed_address_can_be_mapped_again
    (cfg : Build) (orc : Oracle) (os : OS) (this : Mapping) :
  pairwise_disjoint (live os) →
  operator_bool this = true →
  (baseAddress this, size this) ∈ live os →
  0 < baseAddress this → baseAddress this + size this ≤ MAP_FAILED → 0 < size this →
  answer orc os (Munmap (baseAddress this) (size this)) = 0 →
  orc (snd (kernel orc os (Munmap (baseAddress this) (size this))))
      (mmap_call cfg (failed (size this)) (baseAddress this)) = baseAddress this →
  (∀ os2 c, is_hint c = true → answer orc os2 c = 0) →
  ∃ os',
    run orc (Mapping_destroy cfg this ≫=
               λ _, Mapping_at cfg (baseAddress this) (size this)) os
    = Returned this os'.
Proof.
  intros Hpd V Hin Hb Hend Hlen Hu Horc Hh.
  set (os1 := snd (kernel orc os (Munmap (baseAddress this) (size this)))) in *.
  assert (run orc (Mapping_destroy cfg this) os = Returned tt os1) as Hd.
  { unfold Mapping_destroy. rewrite V, run_bind, run_syscall, run_assert.
    by rewrite Hu, bool_decide_eq_true_2, orb_true_r. }
  rewrite run_bind, Hd.
  assert (placeable os1 (baseAddress this) (size this)) as Hp.
  { split_and!; [done..|]. unfold os1. rewrite kernel_munmap_table, decide_True by done.
    by apply pairwise_disjoint_unmap. }
  assert (answer orc os1 (mmap_call cfg (failed (size this)) (baseAddress this))
          = baseAddress this) as Ha.
  { unfold mmap_call. cbn [answer]. cbn [size failed].
    unfold mmap_call in Horc. cbn [size failed] in Horc.
    rewrite Horc. by rewrite decide_True. }
  destruct (Mapping_at_succeeds cfg orc (baseAddress this) (size this) os1) as [os' R].
  - rewrite Ha. by apply bool_decide_eq_true in V.
  - by right.
  - intros c msg Hc. apply Hh. by apply hint_call_is_hint in Hc.
  - exists os'. rewrite R, Ha. by destruct this.
Qed.

Lemma destroyed_address_can_be_mapped_again_witness :
  ∃ os',
    run obliging
      (Mapping_destroy {| platform := Linux true; NDEBUG := false |}
         {| baseAddress := 1048576; size := 4096 |} ≫=
       λ _, Mapping_at {| platform := Linux true; NDEBUG := false |} 1048576 4096)
      {| live := [(1048576, 4096); (65536, 4096)]; trace := []; strays := [] |}
    = Returned {| baseAddress := 1048576; size := 4096 |} os'.
Proof.
  apply (destroyed_address_can_be_mapped_again
           {| platform := Linux true; NDEBUG := false |} obliging
           {| live := [(1048576, 4096); (65536, 4096)]; trace := []; strays := [] |}
           {| baseAddress := 1048576; size := 4096 |}).
  - cbn. split; [|split; [constructor|done]].
    constructor; [|constructor]. unfold overlaps; cbn; lia.
  - reflexivity.
  - apply list_elem_of_here.
  - cbn; lia.
  - by vm_compute.
  - cbn; lia.
  - reflexivity.
  - reflexivity.
  - intros os2 c Hc. by destruct c.
Defined.

(** * The Windows shims *)

Section Win32Facts.
Variables PAGE_READONLY PAGE_READWRITE PAGE_EXECUTE_READ : Z.
Variables MEM_COMMIT MEM_RESERVE MEM_RELEASE : Z.
Variable VirtualAlloc : Z → Z → Z → Z → Z.
Variable VirtualFree : Z → Z → Z → Z.

Local Abbreviation flProtect' :=
  (Win32.flProtect PAGE_READONLY PAGE_READWRITE PAGE_EXECUTE_READ).
Local Abbreviation mmap' :=
  (Win32.mmap PAGE_READONLY PAGE_READWRITE PAGE_EXECUTE_READ MEM_COMMIT MEM_RESERVE
     VirtualAlloc).
Local Abbreviation via_shims' :=
  (Win32.via_shims PAGE_READONLY PAGE_READWRITE PAGE_EXECUTE_READ MEM_COMMIT MEM_RESERVE
     MEM_RELEASE VirtualAlloc VirtualFree).

(** X13. The [mmap] shim never returns a null pointer: a [NULL] from
    [VirtualAlloc] becomes [MAP_FAILED], every other pointer is passed on;
    [flags], [fd] and [offset] have no influence. *)
Theorem win_mmap_never_null (addr length prot flags fd offset : Z) :
  let ptr := VirtualAlloc addr length (Z.lor MEM_COMMIT MEM_RESERVE) (flProtect' prot) in
  mmap' addr length prot flags fd offset ≠ 0 ∧
  (mmap' addr length prot flags fd offset = MAP_FAILED ↔ ptr = 0 ∨ ptr = MAP_FAILED) ∧
  (ptr ≠ 0 → mmap' addr length prot flags fd offset = ptr) ∧
  mmap' addr length prot flags fd offset = mmap' addr length prot 0 0 0.
Proof.
  cbv zeta. unfold Win32.mmap.
  destruct (decide (VirtualAlloc _ _ _ _ = 0)) as [E|E]; split_and!; try done.
  - split; [by left|done].
  - split; [by right|]. by intros [?|?].
Qed.

Lemma land_lor_absorb (x p : Z) : Z.land (Z.lor x p) p = p.
Proof.
  apply Z.bits_inj'. intros n Hn. rewrite Z.land_spec, Z.lor_spec.
  by destruct (Z.testbit x n), (Z.testbit p n).
Qed.

Lemma land_lor_keep (x p q : Z) : Z.land x p = p → Z.land (Z.lor x q) p = p.
Proof.
  intros H. apply Z.bits_inj'. intros n Hn.
  apply (f_equal (λ z, Z.testbit z n)) in H. rewrite Z.land_spec in H.
  rewrite Z.land_spec, Z.lor_spec.
  by destruct (Z.testbit x n), (Z.testbit p n), (Z.testbit q n).
Qed.

(** X14. [flProtect] is built by or-ing: it is 0 when none of the three
    [PROT_] bits is set, and every requested bit leaves all the bits of its
    constant in the result, also when further bits are requested.  For the
    [PROT_READ | PROT_WRITE] of the class it is
    [PAGE_READONLY | PAGE_READWRITE]. *)
Theorem flProtect_accumulates (prot : Z) :
  (Z.land prot 7 = 0 → flProtect' prot = 0) ∧
  (Z.land prot Win32.PROT_READ ≠ 0 →
   Z.land (flProtect' prot) PAGE_READONLY = PAGE_READONLY) ∧
  (Z.land prot Win32.PROT_WRITE ≠ 0 →
   Z.land (flProtect' prot) PAGE_READWRITE = PAGE_READWRITE) ∧
  (Z.land prot Win32.PROT_EXEC ≠ 0 →
   Z.land (flProtect' prot) PAGE_EXECUTE_READ = PAGE_EXECUTE_READ) ∧
  flProtect' (Win32.prot_word [PROT_READ; PROT_WRITE])
    = Z.lor PAGE_READONLY PAGE_READWRITE.
Proof.
  split_and!.
  - intros H7.
    assert (∀ b, Z.land 7 b = b → Z.land prot b = 0) as Hb.
    { intros b Hb. by rewrite <- Hb, Z.land_assoc, H7. }
    unfold Win32.flProtect.
    rewrite !decide_False; [done|intros H; apply H; by apply Hb..].
  - intros H. unfold Win32.flProtect. rewrite (decide_True _ _ H).
    repeat case_decide; repeat first [apply land_lor_absorb | apply land_lor_keep].
  - intros H. unfold Win32.flProtect.
    rewrite (decide_True (P := Z.land prot Win32.PROT_WRITE ≠ 0) _ _ H).
    repeat case_decide; repeat first [apply land_lor_absorb | apply land_lor_keep].
  - intros H. unfold Win32.flProtect.
    rewrite (decide_True (P := Z.land prot Win32.PROT_EXEC ≠ 0) _ _ H).
    repeat case_decide; apply land_lor_absorb.
  - reflexivity.
Qed.

(** X15. The class on top of the shims: when [VirtualAlloc] returns [NULL]
    for the request, the constructor makes that one call, returns an invalid
    object and leaves the kernel's table alone; when it returns a placeable
    pointer -- the requested address, if one was requested -- the object is
    valid at that pointer. *)
Theorem windows_create_through_shims (nd : bool) (os : OS) (addr s : Z) :
  let cfg := {| platform := Other; NDEBUG := nd |} in
  let ptr := VirtualAlloc addr s (Z.lor MEM_COMMIT MEM_RESERVE)
               (Z.lor PAGE_READONLY PAGE_READWRITE) in
  (ptr = 0 →
   ∃ os', run via_shims' (Mapping_at cfg addr s) os = Returned (failed s) os' ∧
          live os' = live os ∧
          since os os' = [(mmap_call cfg (failed s) addr, MAP_FAILED)]) ∧
  (placeable os ptr s → addr = 0 ∨ ptr = addr →
   ∃ os', run via_shims' (Mapping_at cfg addr s) os
          = Returned {| baseAddress := ptr; size := s |} os').
Proof.
  cbv zeta. split.
  - intros Hnull. rewrite Mapping_at_cases.
    set (c := mmap_call _ (failed s) addr).
    assert (answer via_shims' os c = MAP_FAILED) as Ha.
    { unfold c, mmap_call. cbn [answer size failed].
      case_decide as Hp; [|done].
      unfold Win32.via_shims, Win32.mmap. by rewrite decide_True. }
    rewrite decide_True by done. eexists. split_and!; [done| |].
    + by apply kernel_mmap_failed.
    + since_simpl. by rewrite Ha.
  - intros Hp Hat.
    assert (VirtualAlloc addr s (Z.lor MEM_COMMIT MEM_RESERVE)
              (Z.lor PAGE_READONLY PAGE_READWRITE) ≠ 0) as Hnn
      by (destruct Hp as (_ & ? & _); lia).
    assert (answer via_shims' os
              (mmap_call {| platform := Other; NDEBUG := nd |} (failed s) addr)
            = VirtualAlloc addr s (Z.lor MEM_COMMIT MEM_RESERVE)
                (Z.lor PAGE_READONLY PAGE_READWRITE)) as Ha.
    { unfold mmap_call. cbn [answer size failed].
      unfold Win32.via_shims, Win32.mmap.
      change (Win32.flProtect _ _ _ _) with (Z.lor PAGE_READONLY PAGE_READWRITE).
      rewrite (decide_False (P := VirtualAlloc _ _ _ _ = 0)) by done.
      by rewrite decide_True. }
    destruct (Mapping_at_succeeds {| platform := Other; NDEBUG := nd |} via_shims'
                addr s os) as [os' R].
    + rewrite Ha. destruct Hp as (? & ? & ? & _). lia.
    + rewrite Ha. done.
    + intros c msg [=].
    + exists os'. by rewrite R, Ha.
Qed.

End Win32Facts.

Lemma flProtect_accumulates_witness :
  Z.land (Win32.flProtect 2 4 32 3) 2 = 2.
Proof.
  apply (proj1 (proj2 (flProtect_accumulates 2 4 32 3))). vm_compute. discriminate.
Defined.

Lemma windows_create_through_shims_witness :
  ∃ os',
    run (Win32.via_shims 2 4 32 4096 8192 32768 (λ _ _ _ _, 0) (λ _ _ _, 1))
        (Mapping_at {| platform := Other; NDEBUG := false |} 1048576 4096) boot
      = Returned (failed 4096) os' ∧
    live os' = live boot ∧
    since boot os' =
      [(mmap_call {| platform := Other; NDEBUG := false |} (failed 4096) 1048576, MAP_FAILED)].
Proof.
  apply (proj1 (windows_create_through_shims 2 4 32 4096 8192 32768
                  (λ _ _ _ _, 0) (λ _ _ _, 1) false boot 1048576 4096)).
  reflexivity.
Defined.

Lemma win_mmap_never_null_witness :
  Win32.mmap 2 4 32 4096 8192 (λ _ _ _ _, 1048576) 1048576 4096 3 34 (-1) 0 = 1048576.
Proof.
  apply (proj1 (proj2 (proj2 (win_mmap_never_null 2 4 32 4096 8192 (λ _ _ _ _, 1048576)
                                1048576 4096 3 34 (-1) 0)))).
  discriminate.
Defined.

(** ** [gettimeofday] and [getrusage] *)

Section LongFacts.
Variable long_bits : Z.
Hypothesis long_bits_pos : 0 < long_bits.

Lemma long_half : 2 ^ long_bits = 2 * 2 ^ (long_bits - 1) ∧ 0 < 2 ^ (long_bits - 1).
Proof.
  split.
  - replace long_bits with (Z.succ (long_bits - 1)) at 1 by lia.
    rewrite Z.pow_succ_r by lia. done.
  - apply Z.pow_pos_nonneg; lia.
Qed.

Lemma to_long_fits (x : Z) :
  - 2 ^ (long_bits - 1) ≤ x < 2 ^ (long_bits - 1) → WinTime.to_long long_bits x = x.
Proof.
  intros Hx. unfold WinTime.to_long. destruct long_half as [-> Hh].
  rewrite Z.mod_small by lia. lia.
Qed.

Lemma to_long_range (x : Z) :
  - 2 ^ (long_bits - 1) ≤ WinTime.to_long long_bits x < 2 ^ (long_bits - 1).
Proof.
  unfold WinTime.to_long. destruct long_half as [-> Hh].
  pose proof (Z.mod_pos_bound (x + 2 ^ (long_bits - 1)) (2 * 2 ^ (long_bits - 1))).
  lia.
Qed.

Lemma to_long_wraps (x : Z) :
  2 ^ (long_bits - 1) ≤ x < 2 ^ long_bits →
  WinTime.to_long long_bits x = x - 2 ^ long_bits.
Proof.
  intros Hx. unfold WinTime.to_long. destruct long_half as [E Hh]. rewrite E in *.
  replace (x + 2 ^ (long_bits - 1))
    with ((x - 2 ^ (long_bits - 1)) + 1 * (2 * 2 ^ (long_bits - 1))) by lia.
  rewrite Z.mod_add by lia. rewrite Z.mod_small by lia. lia.
Qed.

End LongFacts.

Lemma QuadPart_range (lo hi : Z) : 0 ≤ WinTime.QuadPart lo hi < 2 ^ 64.
Proof.
  unfold WinTime.QuadPart.
  pose proof (Z.mod_pos_bound lo (2 ^ 32)). pose proof (Z.mod_pos_bound hi (2 ^ 32)).
  change (2 ^ 64) with (2 ^ 32 * 2 ^ 32). nia.
Qed.

Lemma million_fits (long_bits : Z) : 21 ≤ long_bits → 1000000 < 2 ^ (long_bits - 1).
Proof.
  intros H. apply Z.lt_le_trans with (2 ^ 20); [done|].
  apply Z.pow_le_mono_r; lia.
Qed.

(** X16. [gettimeofday] always returns 0.  With a null [tp] nothing is
    written; otherwise, whatever the system time, [tv_usec] lies in
    [0, 1000000) and [tv_sec] in the range of [long]. *)
Theorem gettimeofday_fields_in_range
    (long_bits : Z) (tp : option WinTime.timeval) (ft : WinTime.FILETIME) :
  21 ≤ long_bits →
  fst (WinTime.gettimeofday long_bits tp ft) = 0 ∧
  match tp, snd (WinTime.gettimeofday long_bits tp ft) with
  | None, out => out = None
  | Some _, Some tv =>
      0 ≤ WinTime.tv_usec tv < 1000000 ∧
      - 2 ^ (long_bits - 1) ≤ WinTime.tv_sec tv < 2 ^ (long_bits - 1)
  | Some _, None => False
  end.
Proof.
  intros Hlb. destruct tp as [tv0|]; [|done]. split; [done|].
  cbn [WinTime.gettimeofday snd WinTime.tv_usec WinTime.tv_sec]. split.
  - pose proof (million_fits long_bits Hlb).
    pose proof (Z.mod_pos_bound
                  (WinTime.u64 (WinTime.QuadPart (WinTime.dwLowDateTime ft)
                                  (WinTime.dwHighDateTime ft) - WinTime.EPOCH) / 10)
                  1000000).
    rewrite to_long_fits by lia. lia.
  - apply to_long_range. lia.
Qed.

Lemma gettimeofday_fields_in_range_witness :
  fst (WinTime.gettimeofday 32
         (Some {| WinTime.tv_sec := 0; WinTime.tv_usec := 0 |})
         {| WinTime.dwLowDateTime := 3701099797; WinTime.dwHighDateTime := 27111902 |}) = 0 ∧
  match snd (WinTime.gettimeofday 32
               (Some {| WinTime.tv_sec := 0; WinTime.tv_usec := 0 |})
               {| WinTime.dwLowDateTime := 3701099797;
                  WinTime.dwHighDateTime := 27111902 |}) with
  | Some tv =>
      0 ≤ WinTime.tv_usec tv < 1000000 ∧
      - 2 ^ (32 - 1) ≤ WinTime.tv_sec tv < 2 ^ (32 - 1)
  | None => False
  end.
Proof.
  apply (gettimeofday_fields_in_range 32
           (Some {| WinTime.tv_sec := 0; WinTime.tv_usec := 0 |})
           {| WinTime.dwLowDateTime := 3701099797; WinTime.dwHighDateTime := 27111902 |}).
  lia.
Defined.

(** X17. For a system time at or after 1 January 1970 whose seconds fit in
    [long], [gettimeofday] delivers exactly the whole microseconds since
    then: [tv_sec] seconds and [tv_usec] microseconds, together the file
    time's distance from the epoch divided by 10. *)
Theorem gettimeofday_is_exact
    (long_bits : Z) (tv0 : WinTime.timeval) (ft : WinTime.FILETIME) :
  let Q := WinTime.QuadPart (WinTime.dwLowDateTime ft) (WinTime.dwHighDateTime ft) in
  21 ≤ long_bits →
  WinTime.EPOCH ≤ Q →
  (Q - WinTime.EPOCH) / 10000000 < 2 ^ (long_bits - 1) →
  ∃ tv,
    WinTime.gettimeofday long_bits (Some tv0) ft = (0, Some tv) ∧
    WinTime.tv_sec tv = (Q - WinTime.EPOCH) / 10000000 ∧
    WinTime.tv_usec tv = ((Q - WinTime.EPOCH) / 10) mod 1000000 ∧
    WinTime.tv_sec tv * 1000000 + WinTime.tv_usec tv = (Q - WinTime.EPOCH) / 10.
Proof.
  intros Q Hlb Hq Hfit. eexists. split; [reflexivity|].
  cbn [WinTime.tv_sec WinTime.tv_usec]. fold Q.
  pose proof (QuadPart_range (WinTime.dwLowDateTime ft) (WinTime.dwHighDateTime ft)) as HQ.
  fold Q in HQ.
  assert (WinTime.u64 (Q - WinTime.EPOCH) = Q - WinTime.EPOCH) as ->.
  { unfold WinTime.u64. apply Z.mod_small. unfold WinTime.EPOCH in *. lia. }
  set (d := Q - WinTime.EPOCH) in *.
  assert (0 ≤ d) by (unfold d; lia).
  assert (d / 10 / 1000000 = d / 10000000) as Hdd by (rewrite Z.div_div by lia; done).
  pose proof (million_fits long_bits Hlb).
  pose proof (Z.mod_pos_bound (d / 10) 1000000).
  assert (0 ≤ d / 10000000) by (apply Z.div_pos; lia).
  rewrite Hdd, !to_long_fits by lia.
  split_and!; [done..|].
  rewrite <- Hdd. pose proof (Z.div_mod (d / 10) 1000000). lia.
Qed.

Lemma gettimeofday_is_exact_witness :
  ∃ tv,
    WinTime.gettimeofday 32 (Some {| WinTime.tv_sec := 0; WinTime.tv_usec := 0 |})
      {| WinTime.dwLowDateTime := 3701099797; WinTime.dwHighDateTime := 27111902 |}
    = (0, Some tv) ∧
    WinTime.tv_sec tv = 12 ∧ WinTime.tv_usec tv = 345678 ∧
    WinTime.tv_sec tv * 1000000 + WinTime.tv_usec tv = 12345678.
Proof.
  apply (gettimeofday_is_exact 32 {| WinTime.tv_sec := 0; WinTime.tv_usec := 0 |}
           {| WinTime.dwLowDateTime := 3701099797; WinTime.dwHighDateTime := 27111902 |});
    vm_compute; congruence.
Defined.

(** X18. Where the seconds since 1970 no longer fit in [long] but still fit
    in as many bits, the conversion wraps: [tv_sec] is the number of seconds
    less 2 to the power [long_bits], a negative value (with a 32-bit [long],
    from 19 January 2038 on). *)
Theorem gettimeofday_seconds_wrap
    (long_bits : Z) (tv0 : WinTime.timeval) (ft : WinTime.FILETIME) :
  let Q := WinTime.QuadPart (WinTime.dwLowDateTime ft) (WinTime.dwHighDateTime ft) in
  let secs := (Q - WinTime.EPOCH) / 10000000 in
  21 ≤ long_bits →
  WinTime.EPOCH ≤ Q →
  2 ^ (long_bits - 1) ≤ secs < 2 ^ long_bits →
  ∃ tv,
    WinTime.gettimeofday long_bits (Some tv0) ft = (0, Some tv) ∧
    WinTime.tv_sec tv = secs - 2 ^ long_bits ∧
    WinTime.tv_sec tv < 0.
Proof.
  intros Q secs Hlb Hq Hs. eexists. split; [reflexivity|].
  cbn [WinTime.tv_sec]. fold Q.
  pose proof (QuadPart_range (WinTime.dwLowDateTime ft) (WinTime.dwHighDateTime ft)) as HQ.
  fold Q in HQ.
  assert (WinTime.u64 (Q - WinTime.EPOCH) = Q - WinTime.EPOCH) as ->.
  { unfold WinTime.u64. apply Z.mod_small. unfold WinTime.EPOCH in *. lia. }
  rewrite Z.div_div by lia. change (10 * 1000000) with 10000000. fold secs.
  rewrite to_long_wraps by lia. lia.
Qed.

Lemma gettimeofday_seconds_wrap_witness :
  ∃ tv,
    WinTime.gettimeofday 32 (Some {| WinTime.tv_sec := 0; WinTime.tv_usec := 0 |})
      {| WinTime.dwLowDateTime := 3628877568; WinTime.dwHighDateTime := 32111902 |}
    = (0, Some tv) ∧
    WinTime.tv_sec tv = -2147483643 ∧
    WinTime.tv_sec tv < 0.
Proof.
  apply (gettimeofday_seconds_wrap 32 {| WinTime.tv_sec := 0; WinTime.tv_usec := 0 |}
           {| WinTime.dwLowDateTime := 3628877568; WinTime.dwHighDateTime := 32111902 |});
    vm_compute; try split; congruence.
Defined.

(** X19. [getrusage] returns 0 or -1.  It returns 0 exactly when [who] is
    [RUSAGE_SELF] and both system queries succeed; whenever it returns -1,
    [*usage] is left as it was. *)
Theorem getrusage_fails_without_writing
    (long_bits who : Z) (times : option (WinTime.FILETIME * WinTime.FILETIME))
    (peak : option Z) (usage : WinTime.rusage) :
  let r := WinTime.getrusage long_bits who times peak usage in
  (fst r = 0 ∨ fst r = -1) ∧
  (fst r = 0 ↔ who = WinTime.RUSAGE_SELF ∧ is_Some times ∧ is_Some peak) ∧
  (fst r = -1 → snd r = usage).
Proof.
  cbv zeta. unfold WinTime.getrusage.
  destruct (decide (who ≠ WinTime.RUSAGE_SELF)) as [Hw|Hw].
  { cbn. split_and!; [by right| |done]. split; [done|]. by intros (? & _). }
  assert (who = WinTime.RUSAGE_SELF) by (destruct (decide (who = WinTime.RUSAGE_SELF)); done).
  destruct times as [[k u]|].
  2:{ cbn. split_and!; [by right| |done]. split; [done|]. by intros (_ & [? [=]] & _). }
  destruct peak as [p|].
  2:{ cbn. split_and!; [by right| |done]. split; [done|]. by intros (_ & _ & [? [=]]). }
  cbn. split_and!; [by left| |done]. split; [|done]. intros _. by split_and!.
Qed.

Lemma getrusage_fails_without_writing_witness :
  let usage :=
    {| WinTime.ru_utime := {| WinTime.tv_sec := 1; WinTime.tv_usec := 2 |};
       WinTime.ru_stime := {| WinTime.tv_sec := 3; WinTime.tv_usec := 4 |};
       WinTime.ru_maxrss := 5; WinTime.ru_ixrss := 0; WinTime.ru_idrss := 0;
       WinTime.ru_isrss := 0; WinTime.ru_minflt := 0; WinTime.ru_majflt := 0;
       WinTime.ru_nswap := 0; WinTime.ru_inblock := 0; WinTime.ru_oublock := 0;
       WinTime.ru_msgsnd := 0; WinTime.ru_msgrcv := 0; WinTime.ru_nsignals := 0;
       WinTime.ru_nvcsw := 0; WinTime.ru_nivcsw := 0 |} in
  snd (WinTime.getrusage 32 1 None None usage) = usage.
Proof.
  cbv zeta.
  apply (proj2 (proj2 (getrusage_fails_without_writing 32 1 None None _))).
  reflexivity.
Defined.

Lemma filetime_to_timeval (long_bits q : Z) :
  21 ≤ long_bits → 0 ≤ q →
  let sec := WinTime.to_long long_bits (q / 10000000) in
  let usec := WinTime.to_long long_bits ((q mod 10000000) / 10) in
  0 ≤ usec < 1000000 ∧
  (q / 10000000 < 2 ^ (long_bits - 1) →
   sec = q / 10000000 ∧
   10 * (sec * 1000000 + usec) ≤ q < 10 * (sec * 1000000 + usec) + 10).
Proof.
  intros Hlb Hq. cbv zeta.
  pose proof (million_fits long_bits Hlb).
  pose proof (Z.mod_pos_bound q 10000000).
  assert (0 ≤ (q mod 10000000) / 10 < 1000000) as Hu.
  { split; [apply Z.div_pos; lia|]. apply Z.div_lt_upper_bound; lia. }
  rewrite (to_long_fits long_bits) by lia. split; [done|]. intros Hfit.
  assert (0 ≤ q / 10000000) by (apply Z.div_pos; lia).
  rewrite (to_long_fits long_bits) by lia. split; [done|].
  pose proof (Z.div_mod q 10000000).
  pose proof (Z.div_mod (q mod 10000000) 10).
  pose proof (Z.mod_pos_bound (q mod 10000000) 10).
  lia.
Qed.

(** X20. On success [getrusage] writes three fields only -- the other
    thirteen keep what [*usage] held.  The microsecond parts lie in
    [0, 1000000); where the seconds fit in [long] the user and system
    times are the process times rounded down to whole microseconds; and
    where it fits, [ru_maxrss] is the peak working set in whole
    kilobytes. *)
Theorem getrusage_converts_process_times
    (long_bits : Z) (kernel_time user_time : WinTime.FILETIME) (peak : Z)
    (usage : WinTime.rusage) :
  let user := WinTime.QuadPart (WinTime.dwLowDateTime user_time)
                (WinTime.dwHighDateTime user_time) in
  let kernel := WinTime.QuadPart (WinTime.dwLowDateTime kernel_time)
                  (WinTime.dwHighDateTime kernel_time) in
  21 ≤ long_bits → 0 ≤ peak →
  ∃ ru,
    WinTime.getrusage long_bits WinTime.RUSAGE_SELF
      (Some (kernel_time, user_time)) (Some peak) usage = (0, ru) ∧
    0 ≤ WinTime.tv_usec (WinTime.ru_utime ru) < 1000000 ∧
    0 ≤ WinTime.tv_usec (WinTime.ru_stime ru) < 1000000 ∧
    (user / 10000000 < 2 ^ (long_bits - 1) →
     let us := WinTime.tv_sec (WinTime.ru_utime ru) * 1000000
               + WinTime.tv_usec (WinTime.ru_utime ru) in
     10 * us ≤ user < 10 * us + 10) ∧
    (kernel / 10000000 < 2 ^ (long_bits - 1) →
     let us := WinTime.tv_sec (WinTime.ru_stime ru) * 1000000
               + WinTime.tv_usec (WinTime.ru_stime ru) in
     10 * us ≤ kernel < 10 * us + 10) ∧
    (peak / 1024 < 2 ^ (long_bits - 1) →
     1024 * WinTime.ru_maxrss ru ≤ peak < 1024 * WinTime.ru_maxrss ru + 1024) ∧
    (WinTime.ru_ixrss ru, WinTime.ru_idrss ru, WinTime.ru_isrss ru,
     WinTime.ru_minflt ru, WinTime.ru_majflt ru, WinTime.ru_nswap ru,
     WinTime.ru_inblock ru, WinTime.ru_oublock ru, WinTime.ru_msgsnd ru,
     WinTime.ru_msgrcv ru, WinTime.ru_nsignals ru, WinTime.ru_nvcsw ru,
     WinTime.ru_nivcsw ru)
    = (WinTime.ru_ixrss usage, WinTime.ru_idrss usage, WinTime.ru_isrss usage,
       WinTime.ru_minflt usage, WinTime.ru_majflt usage, WinTime.ru_nswap usage,
       WinTime.ru_inblock usage, WinTime.ru_oublock usage, WinTime.ru_msgsnd usage,
       WinTime.ru_msgrcv usage, WinTime.ru_nsignals usage, WinTime.ru_nvcsw usage,
       WinTime.ru_nivcsw usage).
Proof.
  intros user kernel Hlb Hpeak. eexists. split; [reflexivity|].
  cbn [WinTime.ru_utime WinTime.ru_stime WinTime.ru_maxrss WinTime.tv_sec WinTime.tv_usec
       WinTime.ru_ixrss WinTime.ru_idrss WinTime.ru_isrss WinTime.ru_minflt
       WinTime.ru_majflt WinTime.ru_nswap WinTime.ru_inblock WinTime.ru_oublock
       WinTime.ru_msgsnd WinTime.ru_msgrcv WinTime.ru_nsignals WinTime.ru_nvcsw
       WinTime.ru_nivcsw].
  fold user kernel.
  pose proof (QuadPart_range (WinTime.dwLowDateTime user_time)
                (WinTime.dwHighDateTime user_time)) as [Hu _].
  pose proof (QuadPart_range (WinTime.dwLowDateTime kernel_time)
                (WinTime.dwHighDateTime kernel_time)) as [Hk _].
  fold user in Hu. fold kernel in Hk.
  destruct (filetime_to_timeval long_bits user Hlb Hu) as [Hu1 Hu2].
  destruct (filetime_to_timeval long_bits kernel Hlb Hk) as [Hk1 Hk2].
  split; [exact Hu1|]. split; [exact Hk1|].
  split; [|split; [|split; [|done]]].
  - intros Hfit. by destruct (Hu2 Hfit).
  - intros Hfit. by destruct (Hk2 Hfit).
  - intros Hfit. assert (0 ≤ peak / 1024) by (apply Z.div_pos; lia).
    rewrite to_long_fits by lia.
    pose proof (Z.div_mod peak 1024). pose proof (Z.mod_pos_bound peak 1024). lia.
Qed.

Lemma getrusage_converts_process_times_witness :
  ∃ ru,
    WinTime.getrusage 32 WinTime.RUSAGE_SELF
      (Some ({| WinTime.dwLowDateTime := 1234567890; WinTime.dwHighDateTime := 0 |},
             {| WinTime.dwLowDateTime := 4276151597; WinTime.dwHighDateTime := 22 |}))
      (Some 52428800)
      {| WinTime.ru_utime := {| WinTime.tv_sec := 0; WinTime.tv_usec := 0 |};
         WinTime.ru_stime := {| WinTime.tv_sec := 0; WinTime.tv_usec := 0 |};
         WinTime.ru_maxrss := 0; WinTime.ru_ixrss := 1; WinTime.ru_idrss := 2;
         WinTime.ru_isrss := 3; WinTime.ru_minflt := 4; WinTime.ru_majflt := 5;
         WinTime.ru_nswap := 6; WinTime.ru_inblock := 7; WinTime.ru_oublock := 8;
         WinTime.ru_msgsnd := 9; WinTime.ru_msgrcv := 10; WinTime.ru_nsignals := 11;
         WinTime.ru_nvcsw := 12; WinTime.ru_nivcsw := 13 |}
    = (0, ru) ∧
    WinTime.ru_utime ru = {| WinTime.tv_sec := 9876; WinTime.tv_usec := 543210 |} ∧
    WinTime.ru_stime ru = {| WinTime.tv_sec := 123; WinTime.tv_usec := 456789 |} ∧
    WinTime.ru_maxrss ru = 51200 ∧ WinTime.ru_nivcsw ru = 13.
Proof.
  destruct (getrusage_converts_process_times 32
              {| WinTime.dwLowDateTime := 1234567890; WinTime.dwHighDateTime := 0 |}
              {| WinTime.dwLowDateTime := 4276151597; WinTime.dwHighDateTime := 22 |}
              52428800
              {| WinTime.ru_utime := {| WinTime.tv_sec := 0; WinTime.tv_usec := 0 |};
                 WinTime.ru_stime := {| WinTime.tv_sec := 0; WinTime.tv_usec := 0 |};
                 WinTime.ru_maxrss := 0; WinTime.ru_ixrss := 1; WinTime.ru_idrss := 2;
                 WinTime.ru_isrss := 3; WinTime.ru_minflt := 4; WinTime.ru_majflt := 5;
                 WinTime.ru_nswap := 6; WinTime.ru_inblock := 7; WinTime.ru_oublock := 8;
                 WinTime.ru_msgsnd := 9; WinTime.ru_msgrcv := 10; WinTime.ru_nsignals := 11;
                 WinTime.ru_nvcsw := 12; WinTime.ru_nivcsw := 13 |}
              ltac:(lia) ltac:(lia)) as (ru & R & _).
  exists ru. split; [exact R|]. injection R as <-. by vm_compute.
Defined.
